(** * Magic Password Manager (mpm.py): a shallow embedding and its properties

    The program keeps credential rows in a csv file whose cells are
    encrypted one by one under a master password.  This development embeds
    [get_database_names], [create_empty_database], [open_database],
    [save_database], [delete_database], [create_random_password] and the
    branches of [main], and states what the code guarantees about them.

    Modelling conventions.
    - A csv file is represented by the rows [csv.reader] yields from it
      (a list of lists of text cells); [csv.writer.writerow] appends one
      row.  The token strings produced by the cipher contain no delimiter,
      so the csv quoting layer is the identity on them.
    - The file system is a finite map from path to content, and a path is
      identified with its string.  That is how the program behaves for
      plain file names of the working directory (no slash in them, see
      [plain] and [plain_world]); statements that compare two paths or
      list the directory are made for such names.
    - The map holds the files that [csv.reader] can read.  A file whose
      bytes do not decode as text, or with a field beyond the size limit of
      the csv module, has no representation, and nothing is stated about
      opening one.
    - Python exceptions are values of [exn]; a computation returns a
      [result] together with the world it leaves behind, so that the effect
      of a call that raises midway stays visible.
    - All randomness (the salts of the cipher, [random.sample],
      [random.shuffle]) is read from a stream of draws held by the world.
    - [cryptocode.encrypt] and [cryptocode.decrypt] belong to a third-party
      package; they are parameters of [Section Vault]. *)

From Stdlib Require Import Ascii String.
From stdpp Require Import base numbers option list gmap strings pretty.

Local Open Scope string_scope.
Local Open Scope nat_scope.
Local Open Scope list_scope.
Local Open Scope stdpp_scope.

(** ** Python values and exceptions *)

(** A decrypted cell: [cryptocode.decrypt] returns the plaintext [str], or
    the boolean [False] when the token is malformed or fails
    authentication. *)
Inductive pyval : Type :=
  | PStr (s : string)
  | PFalse.

#[global] Instance pyval_eq_dec : EqDecision pyval.
Proof. solve_decision. Defined.

Inductive exn : Type :=
  | FileExistsError (msg : string)
  | FileNotFoundError (msg : string)
  | ValueError (msg : string)
  | IndexError (msg : string)
  | TypeError (msg : string)
  | SystemExit (msg : string).

#[global] Instance exn_eq_dec : EqDecision exn.
Proof. solve_decision. Defined.

Inductive result (A : Type) : Type :=
  | Ok (a : A)
  | Raise (e : exn).
Arguments Ok {A} a.
Arguments Raise {A} e.

(** ** The world: files, the journal of file operations, random draws *)

Abbreviation row := (list pyval).
Abbreviation csv_row := (list string).

(** The operations the program performs on files.  Opening a file for
    writing empties it at once.  A row written afterwards goes through the
    buffer of the file object and is on the disk when the file is closed,
    which the [with] block does on leaving, also through an exception. *)
Inductive syscall : Type :=
  | SysCreat (path : string)                  (* open(path, "w"): create or truncate *)
  | SysWriteRow (path : string) (r : csv_row) (* writer.writerow on a file open for writing *)
  | SysUnlink (path : string).                (* os.remove(path) *)

Definition apply_syscall (fs : gmap string (list csv_row)) (c : syscall)
  : gmap string (list csv_row) :=
  match c with
  | SysCreat p => <[p := []]> fs
  | SysWriteRow p r => alter (λ content, content ++ [r]) p fs
  | SysUnlink p => delete p fs
  end.

Record world : Type := World {
  files : gmap string (list csv_row);
  journal : list syscall;
  entropy : nat → nat;
  cursor : nat
}.

(** ** The monad of effectful computations *)

Definition M (A : Type) : Type := world → result A * world.

Definition ret {A} (a : A) : M A := λ w, (Ok a, w).

Definition raise {A} (e : exn) : M A := λ w, (Raise e, w).

Definition bind {A B} (m : M A) (k : A → M B) : M B :=
  λ w, match m w with
       | (Ok a, w') => k a w'
       | (Raise e, w') => (Raise e, w')
       end.

Notation "'let*' x ':=' m 'in' k" := (bind m (λ x, k))
  (at level 10, x name, m at level 100, k at level 200,
   format "'[v' 'let*'  x  :=  m  'in' '/' k ']'").

(** try/except: the handler sees the exception and the world left behind. *)
Definition catch {A} (m : M A) (h : exn → M A) : M A :=
  λ w, match m w with
       | (Ok a, w') => (Ok a, w')
       | (Raise e, w') => h e w'
       end.

Fixpoint mapM {A B} (f : A → M B) (l : list A) : M (list B) :=
  match l with
  | [] => ret []
  | a :: l' => let* b := f a in let* bs := mapM f l' in ret (b :: bs)
  end.

Fixpoint forM_ {A} (l : list A) (f : A → M unit) : M unit :=
  match l with
  | [] => ret tt
  | a :: l' => let* _ := f a in forM_ l' f
  end.

(** Primitive effects. *)
Definition path_exists (p : string) : M bool :=
  λ w, (Ok (bool_decide (is_Some (files w !! p))), w).

Definition do_syscall (c : syscall) : M unit :=
  λ w, (Ok tt, World (apply_syscall (files w) c) (journal w ++ [c])
                     (entropy w) (cursor w)).

(** open(path, "r") followed by reading every row through csv.reader, for
    the files the map can hold: those that decode as text and parse.  The
    UnicodeDecodeError and csv.Error that line 189 raises on other files
    are outside this model. *)
Definition read_rows (p : string) : M (list csv_row) :=
  λ w, match files w !! p with
       | Some content => (Ok content, w)
       | None => (Raise (FileNotFoundError "No such file or directory"), w)
       end.

(** The next random draw. *)
Definition draw : M nat :=
  λ w, (Ok (entropy w (cursor w)),
        World (files w) (journal w) (entropy w) (S (cursor w))).

(** What a computation that only reads files and draws leaves as it was. *)
Definition same_store (w w' : world) : Prop :=
  files w' = files w ∧ journal w' = journal w ∧ entropy w' = entropy w.

(** A vault name, or a path, that is a plain file name of the working
    directory: no slash in it. *)
Definition plain (name : string) : Prop :=
  "/"%char ∉ list_ascii_of_string name.

#[global] Instance plain_dec (name : string) : Decision (plain name).
Proof. unfold plain. apply _. Defined.

(** Every file of the world is a plain file of the working directory. *)
Definition plain_world (w : world) : Prop :=
  map_Forall (λ path _, plain path) (files w).

(** The content found at one path is the same before and after. *)
Definition keeps (path : string) (w w' : world) : Prop :=
  files w' !! path = files w !! path.

(** ** random.sample and random.shuffle *)

(** [k] picks without replacement: each pick takes the element of the
    remaining pool at a position fixed by the next draw. *)
Fixpoint pick {A} (k : nat) (pool : list A) : M (list A) :=
  match k with
  | 0 => ret []
  | S k' =>
      let* r := draw in
      let i := r `mod` length pool in
      match pool !! i with
      | Some x => let* rest := pick k' (delete i pool) in ret (x :: rest)
      | None => raise (IndexError "Cannot choose from an empty sequence")
      end
  end.

Definition sample {A} (population : list A) (k : nat) : M (list A) :=
  if bool_decide (k ≤ length population)
  then pick k population
  else raise (ValueError "Sample larger than population or is negative").

Definition shuffle {A} (x : list A) : M (list A) := pick (length x) x.

(** ** The character classes of the [string] module *)

Definition ascii_lowercase : list ascii :=
  list_ascii_of_string "abcdefghijklmnopqrstuvwxyz".
Definition ascii_uppercase : list ascii :=
  list_ascii_of_string "ABCDEFGHIJKLMNOPQRSTUVWXYZ".
Definition digits : list ascii :=
  list_ascii_of_string "0123456789".
(** The 32 characters of [string.punctuation]; the double quote is given by
    its code. *)
Definition punctuation : list ascii :=
  list_ascii_of_string "!" ++ [ascii_of_nat 34] ++
  list_ascii_of_string "#$%&'()*+,-./:;<=>?@[\]^_`{|}~".

(** ** create_random_password (mpm.py, lines 234-264) *)

Definition MINIMUM_LENGTH : Z := 5.

Definition effective_length (password_length : Z) : Z :=
  if bool_decide (password_length < MINIMUM_LENGTH)%Z
  then MINIMUM_LENGTH else password_length.

Definition create_random_password (password_length : Z) : M string :=
  let password_length := effective_length password_length in
  let count_characters_per_group := Z.to_nat (password_length `div` 4) in
  let count_rest := Z.to_nat (password_length `mod` 4) in
  let* lower := sample ascii_lowercase (count_characters_per_group + count_rest) in
  let* upper := sample ascii_uppercase count_characters_per_group in
  let* digit := sample digits count_characters_per_group in
  let* punct := sample punctuation count_characters_per_group in
  let* password_characters := shuffle (lower ++ upper ++ digit ++ punct) in
  ret (string_of_list_ascii password_characters).

(** [len([c for c in pwd if c in cls])], as the tests count a class. *)
Definition count_in (cls : list ascii) (pwd : string) : nat :=
  length (filter (λ c, c ∈ cls) (list_ascii_of_string pwd)).

(** ** get_database_names (mpm.py, lines 132-144) *)

(** [s.split(sep)] for a one-character separator. *)
Fixpoint py_split (sep : ascii) (s : string) : list string :=
  match s with
  | EmptyString => [EmptyString]
  | String c s' =>
      if Ascii.eqb c sep then EmptyString :: py_split sep s'
      else match py_split sep s' with
           | piece :: pieces => String c piece :: pieces
           | [] => [String c EmptyString]
           end
  end.

(** Shell-style matching of a file name against a pattern made of literal
    characters, [*] and [?] (bracket classes are not modelled). *)
Fixpoint fnmatch (pat name : list ascii) : bool :=
  match pat with
  | [] => match name with [] => true | _ => false end
  | p :: pat' =>
      if Ascii.eqb p "*"%char then
        (fix star (n : list ascii) : bool :=
           fnmatch pat' n || match n with [] => false | _ :: n' => star n' end) name
      else
        match name with
        | [] => false
        | c :: name' => (Ascii.eqb p "?"%char || Ascii.eqb p c) && fnmatch pat' name'
        end
  end.

Definition ishidden (name : string) : bool :=
  match name with
  | String c _ => Ascii.eqb c "."%char
  | EmptyString => false
  end.

(** The components of a path, and the path of given components. *)
Definition components (path : string) : list string := py_split "/"%char path.

Fixpoint join_path (cs : list string) : string :=
  match cs with
  | [] => EmptyString
  | [c] => c
  | c :: cs' => c +:+ String "/"%char (join_path cs')
  end.

(** One entry of a directory against one component of the pattern: the
    name must match, and a hidden name only matches a hidden pattern. *)
Definition selects (pat name : string) : bool :=
  fnmatch (list_ascii_of_string pat) (list_ascii_of_string name)
  && (ishidden pat || negb (ishidden name)).

(** The entries of a directory, read off the paths below it: their first
    components, each one once (a file for a path of one component, a
    sub-directory otherwise). *)
Definition entries (paths : list (list string)) : list string :=
  remove_dups (omap head paths).

(** The paths below the sub-directory [name]. *)
Definition below (name : string) (paths : list (list string)) : list (list string) :=
  omap (λ p, match p with
             | c :: (_ :: _ as rest) =>
                 if bool_decide (c = name) then Some rest else None
             | _ => None
             end) paths.

(** The pattern, component by component, against the directory tree. *)
Fixpoint glob_below (pats : list string) (paths : list (list string))
  : list (list string) :=
  match pats with
  | [] => []
  | pat :: pats' =>
      let found := List.filter (selects pat) (entries paths) in
      match pats' with
      | [] => (λ name, [name]) <$> found
      | _ :: _ =>
          flat_map (λ name, cons name <$> glob_below pats' (below name paths)) found
      end
  end.

(** [glob.glob(pattern)] from the working directory: the pattern is matched
    component by component against the entries of the directories, a star
    or question mark never reaching over a slash, and the result comes in
    the order the directory is enumerated.  The patterns covered are the
    relative ones that do not end in a slash, the default "*.mpmdb" among
    them. *)
Definition glob (pattern : string) (fs : gmap string (list csv_row)) : list string :=
  join_path <$> glob_below (components pattern) (components <$> (fst <$> map_to_list fs)).

Definition get_database_names (search_pattern : string) : M (list string) :=
  λ w,
    let db_files := glob search_pattern (files w) in
    let db_names := (λ db_file, nth 0 (py_split "."%char db_file) EmptyString) <$> db_files in
    (Ok db_names, w).

(** ** The add and remove steps of main on the rows in memory *)

(** Lines 99-101: the index is [str(len(rows))], the password comes from
    [create_random_password], the new row is appended.  argparse leaves
    [args.password_length] at [None] when [-l] is not given, and passes it
    on as it is. *)
Definition add_entry (rows : list row) (title username : string)
    (password_length : option Z) : M (list row) :=
  let index := pretty (length rows) in
  let* password :=
    match password_length with
    | Some n => create_random_password n
    | None => raise (TypeError "'<' not supported between instances of 'NoneType' and 'int'")
    end in
  ret (rows ++ [[PStr index; PStr title; PStr username; PStr password]]).

(** Lines 124-126: [for index, row in enumerate(rows): if index > 0:
    row[0] = str(index)].  The rows are updated in place, so the second
    component is the list as the loop leaves it, also when an empty row
    makes the assignment raise. *)
Fixpoint reindex (index : nat) (rows : list row) : result unit * list row :=
  match rows with
  | [] => (Ok tt, [])
  | r :: rest =>
      if bool_decide (0 < index) then
        match r with
        | [] => (Raise (IndexError "list assignment index out of range"), r :: rest)
        | _ :: cols =>
            let '(res, rest') := reindex (S index) rest in
            (res, (PStr (pretty index) :: cols) :: rest')
        end
      else
        let '(res, rest') := reindex (S index) rest in (res, r :: rest')
  end.

(** Lines 118-126: the range test, [rows.pop(args.index)] and the
    re-indexing loop.  The second component is the list object afterwards. *)
Definition remove_entry (rows : list row) (index : Z) : result unit * list row :=
  if bool_decide (¬ (1 ≤ index < Z.of_nat (length rows))%Z)
  then (Raise (SystemExit "Could not remove item: Invalid index
"), rows)
  else reindex 0 (delete (Z.to_nat index) rows).

Definition exn_msg (e : exn) : string :=
  match e with
  | FileExistsError m | FileNotFoundError m | ValueError m
  | IndexError m | TypeError m | SystemExit m => m
  end.

(** The except clauses around [open_database] in main. *)
Definition exit_on_error {A} (e : exn) : M A :=
  match e with
  | FileNotFoundError m | ValueError m => raise (SystemExit ("Error: " +:+ m))
  | SystemExit m => raise (SystemExit m)
  | _ => raise (SystemExit ("Unexpected Error: " +:+ exn_msg e))
  end.

Definition row_header : list string := ["index"; "title"; "username"; "password"].

(** ** Statements about the rows of an opened vault *)

(** Every entry carries the decimal string of its 1-based position. *)
Definition indexed (entries : list row) : Prop :=
  ∀ i r, entries !! i = Some r → r !! 0 = Some (PStr (pretty (S i))).

(** The title, user name and password of an entry. *)
Definition fields (r : row) : row := drop 1 r.

(** The entry rows made of the given (title, username, password) triples,
    numbered from [k]. *)
Fixpoint numbered (k : nat) (ps : list (string * string * string)) : list (list string) :=
  match ps with
  | [] => []
  | (title, username, password) :: ps' =>
      [pretty k; title; username; password] :: numbered (S k) ps'
  end.

(** The cells of an entry after its index, as Python values. *)
Definition payload_row (p : string * string * string) : row :=
  let '(title, username, password) := p in
  [PStr title; PStr username; PStr password].

(** One run of the program with the sub-command [add] or [remove]; the
    master password is what the user types at the prompt of that run. *)
Inductive command : Type :=
  | Add (master_pwd title username : string) (password_length : option Z)
  | Remove (master_pwd : string) (index : Z).

(** An entry row: some index cell, then the cells of the triple. *)
Definition entry_of (r : row) (p : string * string * string) : Prop :=
  ∃ ix, r = PStr ix :: payload_row p.

(** What one run may do to the entries: leave them as they are (the run
    ended in an error), append one, or drop the one at the given position;
    the cells after the index are never touched. *)
Definition order_kept (c : command) (before after : list row) : Prop :=
  fields <$> after = fields <$> before
  ∨ (∃ password,
       match c with
       | Add _ title username _ =>
           fields <$> after =
             (fields <$> before) ++ [[PStr title; PStr username; PStr password]]
       | Remove _ _ => False
       end)
  ∨ match c with
    | Remove _ index =>
        (1 ≤ index ≤ Z.of_nat (length before))%Z ∧
        fields <$> after = delete (Z.to_nat index - 1) (fields <$> before)
    | Add _ _ _ _ => False
    end.

(** The same three possibilities on the triples behind the entries. *)
Definition step_of (c : command) (ps ps' : list (string * string * string)) : Prop :=
  ps' = ps
  ∨ (∃ password,
       match c with
       | Add _ title username _ => ps' = ps ++ [(title, username, password)]
       | Remove _ _ => False
       end)
  ∨ match c with
    | Remove _ index =>
        (1 ≤ index ≤ Z.of_nat (length ps))%Z ∧ ps' = delete (Z.to_nat index - 1) ps
    | Add _ _ _ _ => False
    end.

Section Vault.

(** [encrypt salt message password] is the token [cryptocode.encrypt]
    returns when its random material is [salt]. *)
Variable encrypt : nat → string → string → string.
Variable decrypt : string → string → pyval.

(** [cryptocode.encrypt(column, master_pwd)]: it draws its salt, then
    encodes the message, which fails on a value that is not a [str]. *)
Definition encrypt_cell (column : pyval) (master_pwd : string) : M string :=
  let* salt := draw in
  match column with
  | PStr message => ret (encrypt salt message master_pwd)
  | PFalse => raise (TypeError "encoding without a string argument")
  end.

Definition encrypt_row (r : row) (master_pwd : string) : M csv_row :=
  mapM (λ column, encrypt_cell column master_pwd) r.

(** Lines 147-165. *)
Definition create_empty_database (database master_pwd : string) : M unit :=
  let db_file := database +:+ ".mpmdb" in
  let* present := path_exists db_file in
  if present then raise (FileExistsError "A database with that name already exists")
  else
    let* _ := do_syscall (SysCreat db_file) in
    let* encrypted := encrypt_row (PStr <$> row_header) master_pwd in
    do_syscall (SysWriteRow db_file encrypted).

(** Lines 168-199. *)
Definition open_database (database master_pwd : string) : M (list row) :=
  let db_file := database +:+ ".mpmdb" in
  let* present := path_exists db_file in
  if negb present then raise (FileNotFoundError "Database file not found")
  else
    let* password_rows := read_rows db_file in
    let password_rows_decrypted :=
      (λ r : csv_row, (λ column, decrypt column master_pwd) <$> r) <$> password_rows in
    match password_rows_decrypted !! 0 with
    | None => raise (IndexError "list index out of range")
    | Some first_row =>
        match first_row !! 0 with
        | None => raise (IndexError "list index out of range")
        | Some cell =>
            if bool_decide (cell ≠ PStr "index")
            then raise (ValueError "Master password incorrect")
            else ret password_rows_decrypted
        end
    end.

(** Lines 202-215. *)
Definition save_database (database master_pwd : string) (rows : list row) : M unit :=
  let db_file := database +:+ ".mpmdb" in
  let* _ := do_syscall (SysCreat db_file) in
  forM_ rows (λ r,
    let* encrypted := encrypt_row r master_pwd in
    do_syscall (SysWriteRow db_file encrypted)).

(** Lines 218-231. *)
Definition delete_database (database : string) : M unit :=
  let db_file := database +:+ ".mpmdb" in
  let* present := path_exists db_file in
  if negb present then raise (FileNotFoundError "Database file not found")
  else do_syscall (SysUnlink db_file).

(** Lines 87-104: the [add] branch of main; the value is the table it
    prints. *)
Definition main_add (database master_pwd title username : string)
    (password_length : option Z) : M (list row) :=
  let* rows := catch (open_database database master_pwd) exit_on_error in
  let* rows := add_entry rows title username password_length in
  let* _ := save_database database master_pwd rows in
  ret rows.

(** Lines 106-129: the [remove] branch of main. *)
Definition main_remove (database master_pwd : string) (index : Z) : M (list row) :=
  let* rows := catch (open_database database master_pwd) exit_on_error in
  match remove_entry rows index with
  | (Raise e, _) => raise e
  | (Ok _, rows) =>
      let* _ := save_database database master_pwd rows in
      ret rows
  end.

Definition run_command (database : string) (c : command) (w : world) : world :=
  match c with
  | Add master_pwd title username password_length =>
      snd (main_add database master_pwd title username password_length w)
  | Remove master_pwd index =>
      snd (main_remove database master_pwd index w)
  end.

Definition run_commands (database : string) (cs : list command) (w : world) : world :=
  foldl (λ w c, run_command database c w) w cs.

(** The tokens a row of text cells is written as when the stream of draws
    is [draws] and the next unused draw is number [c]. *)
Fixpoint seal_row (master_pwd : string) (draws : nat → nat) (c : nat)
    (cols : list string) : csv_row :=
  match cols with
  | [] => []
  | message :: cols' =>
      encrypt (draws c) message master_pwd :: seal_row master_pwd draws (S c) cols'
  end.

Fixpoint seal_rows (master_pwd : string) (draws : nat → nat) (c : nat)
    (rows : list (list string)) : list csv_row :=
  match rows with
  | [] => []
  | r :: rows' =>
      seal_row master_pwd draws c r :: seal_rows master_pwd draws (c + length r) rows'
  end.

(** The backing file of [database] holds the header and the given entries,
    numbered from 1, all encrypted under the master password. *)
Definition vault_holds (database master_pwd : string)
    (ps : list (string * string * string)) (w : world) : Prop :=
  ∃ draws c,
    files w !! (database +:+ ".mpmdb") =
      Some (seal_rows master_pwd draws c (row_header :: numbered 1 ps)).

End Vault.

(** ** The other branches of main *)

(** Lines 39-45, the [list-db] branch; the value is the list of names it
    prints. *)
Definition main_list_db : M (list string) :=
  let* db_names := get_database_names "*.mpmdb" in
  if bool_decide (length db_names = 0)
  then raise (SystemExit "No database files found. You can use the 'create-db' subcommand to create a database.
")
  else ret db_names.

(** How the [delete-db] branch can end: it returns, it ends with an
    exception of [exn], or it ends with the UnboundLocalError that reading a
    local variable without a value raises. *)
Inductive ending : Type :=
  | Returned
  | Uncaught (e : exn)
  | UnboundLocalError (variable : string).

Section Program.

Variable encrypt : nat → string → string → string.
Variable decrypt : string → string → pyval.

(** Lines 47-62, the [create-db] branch once the two prompts have been
    answered with the same text [master_pwd]. *)
Definition main_create_db (database master_pwd : string) : M unit :=
  catch (create_empty_database encrypt database master_pwd)
    (λ e, match e with
          | FileExistsError m => raise (SystemExit ("Error: " +:+ m))
          | SystemExit m => raise (SystemExit m)
          | _ => raise (SystemExit ("Unexpected Error: " +:+ exn_msg e))
          end).

(** Lines 64-76, the [open-db] branch; the value is the table it prints. *)
Definition main_open_db (database master_pwd : string) : M (list row) :=
  catch (open_database decrypt database master_pwd) exit_on_error.

(** Lines 78-85, the [delete-db] branch.  The clause
    [except FileNotFoundError:] binds no name, and its body reads [err],
    which is a local variable of main without a value at that point. *)
Definition main_delete_db (database : string) (w : world) : ending * world :=
  match delete_database database w with
  | (Ok _, w') => (Returned, w')
  | (Raise (FileNotFoundError _), w') => (UnboundLocalError "err", w')
  | (Raise (SystemExit m), w') => (Uncaught (SystemExit m), w')
  | (Raise e, w') => (Uncaught (SystemExit ("Unexpected Error: " +:+ exn_msg e)), w')
  end.

End Program.

(** ** A reference cipher

    An instance of the cipher interface used to run the vault on concrete
    inputs: the token spells the password out, each character behind a dot,
    then a star, then the message.  Decryption under another password
    returns [False], as an authenticated cipher does. *)
Module Reference.

Fixpoint seal (password : string) (message : string) : string :=
  match password with
  | EmptyString => String "*" message
  | String c password' => String "." (String c (seal password' message))
  end.

Fixpoint unseal (password : string) (token : string) : pyval :=
  match password with
  | EmptyString =>
      match token with
      | String t message => if Ascii.eqb t "*" then PStr message else PFalse
      | EmptyString => PFalse
      end
  | String c password' =>
      match token with
      | String t (String c' token') =>
          if Ascii.eqb t "." && Ascii.eqb c c' then unseal password' token' else PFalse
      | _ => PFalse
      end
  end.

Definition encrypt (salt : nat) (message password : string) : string :=
  seal password message.

Definition decrypt (token password : string) : pyval :=
  unseal password token.

Definition fresh : world := World ∅ [] (λ n, 7 * n + 3) 0.

End Reference.

(** * Properties *)

(** ** Sampling *)

Lemma bind_ok {A B} (m : M A) (k : A → M B) w a w' :
  m w = (Ok a, w') → bind m k w = k a w'.
Proof. intros H. unfold bind. by rewrite H. Qed.

Lemma bind_raise {A B} (m : M A) (k : A → M B) w e w' :
  m w = (Raise e, w') → bind m k w = (Raise e, w').
Proof. intros H. unfold bind. by rewrite H. Qed.

Lemma same_store_refl w : same_store w w.
Proof. by repeat split. Qed.

Lemma same_store_trans w1 w2 w3 :
  same_store w1 w2 → same_store w2 w3 → same_store w1 w3.
Proof. unfold same_store. intros (-> & -> & ->) (-> & -> & ->). done. Qed.

Lemma pick_spec {A} (k : nat) : ∀ (pool : list A) (w : world),
  k ≤ length pool →
  ∃ picked rest w',
    pick k pool w = (Ok picked, w') ∧ length picked = k ∧
    picked ++ rest ≡ₚ pool ∧ same_store w w'.
Proof.
  induction k as [|k IH]; intros pool w Hk.
  - exists [], pool, w. repeat split; done.
  - cbn [pick]. unfold bind at 1, draw at 1.
    set (i := entropy w (cursor w) `mod` length pool).
    assert (Hi : i < length pool) by (apply Nat.mod_upper_bound; lia).
    destruct (lookup_lt_is_Some_2 _ _ Hi) as [x Hx]. rewrite Hx.
    set (w1 := World _ _ _ _).
    destruct (IH (delete i pool) w1) as (picked & rest & w' & Hp & Hlen & Hperm & Hst).
    { rewrite length_delete by eauto. lia. }
    exists (x :: picked), rest, w'.
    rewrite (bind_ok _ _ _ _ _ Hp). repeat split; try apply Hst.
    + cbn. by rewrite Hlen.
    + cbn. rewrite Hperm. symmetry. by apply delete_Permutation.
Qed.

Lemma sample_result {A} (population : list A) (k : nat) (w : world) :
  (k ≤ length population ∧
   ∃ picked w', sample population k w = (Ok picked, w') ∧ length picked = k ∧
                Forall (λ x, x ∈ population) picked ∧ same_store w w')
  ∨ (length population < k ∧
     sample population k w =
       (Raise (ValueError "Sample larger than population or is negative"), w)).
Proof.
  unfold sample. case_bool_decide as Hk.
  - left. split; [done|].
    destruct (pick_spec k population w Hk) as (picked & rest & w' & Hp & Hlen & Hperm & Hst).
    exists picked, w'. repeat split; try done; try apply Hst.
    apply Forall_forall. intros x Hx. rewrite <- Hperm. set_solver.
  - right. split; [lia | done].
Qed.

Lemma shuffle_spec {A} (x : list A) (w : world) :
  ∃ shuffled w', shuffle x w = (Ok shuffled, w') ∧ shuffled ≡ₚ x ∧ same_store w w'.
Proof.
  destruct (pick_spec (length x) x w) as (picked & rest & w' & Hp & Hlen & Hperm & Hst);
    [done|].
  exists picked, w'. repeat split; try done; try apply Hst.
  assert (rest = []) as ->.
  { apply Permutation_length in Hperm. rewrite length_app in Hperm.
    destruct rest; [done | cbn in Hperm; lia]. }
  by rewrite app_nil_r in Hperm.
Qed.

(** ** Counting the characters of a class *)

Section Counting.
Context {A : Type} (P : A → Prop) `{!∀ x, Decision (P x)}.

Lemma length_filter_all (l : list A) :
  Forall P l → length (filter P l) = length l.
Proof.
  induction 1 as [|x l Hx _ IH]; [done|].
  rewrite filter_cons_True by done. cbn. by rewrite IH.
Qed.

Lemma length_filter_none (l : list A) :
  Forall (λ x, ¬ P x) l → length (filter P l) = 0.
Proof.
  induction 1 as [|x l Hx _ IH]; [done|].
  by rewrite filter_cons_False.
Qed.

End Counting.

Lemma Forall_other_class (cls cls' : list ascii) (l : list ascii) :
  Forall (λ c, c ∉ cls) cls' →
  Forall (λ c, c ∈ cls') l → Forall (λ c, ¬ c ∈ cls) l.
Proof.
  rewrite !Forall_forall. intros Hd Hl c Hc. apply Hd, Hl, Hc.
Qed.

Lemma classes_disjoint :
  Forall (λ c, (c ∉ ascii_uppercase) ∧ (c ∉ digits) ∧ (c ∉ punctuation)) ascii_lowercase ∧
  Forall (λ c, (c ∉ ascii_lowercase) ∧ (c ∉ digits) ∧ (c ∉ punctuation)) ascii_uppercase ∧
  Forall (λ c, (c ∉ ascii_lowercase) ∧ (c ∉ ascii_uppercase) ∧ (c ∉ punctuation)) digits ∧
  Forall (λ c, (c ∉ ascii_lowercase) ∧ (c ∉ ascii_uppercase) ∧ (c ∉ digits)) punctuation.
Proof. repeat split; apply (bool_decide_unpack _); vm_compute; exact I. Qed.

(** ** create_random_password *)

Lemma effective_length_max (n : Z) : effective_length n = Z.max n 5.
Proof. unfold effective_length, MINIMUM_LENGTH. case_bool_decide; lia. Qed.

Lemma class_sizes :
  length ascii_lowercase = 26 ∧ length ascii_uppercase = 26 ∧
  length digits = 10 ∧ length punctuation = 32.
Proof. by vm_compute. Qed.

(** The shape of a successful run: four samples, one per class, shuffled. *)
Lemma create_random_password_ok (n : Z) (w : world) :
  (Z.max n 5 ≤ 43)%Z →
  ∃ lower upper digit punct chars w',
    create_random_password n w = (Ok (string_of_list_ascii chars), w') ∧
    chars ≡ₚ lower ++ upper ++ digit ++ punct ∧
    length lower = Z.to_nat (Z.max n 5 `div` 4) + Z.to_nat (Z.max n 5 `mod` 4) ∧
    length upper = Z.to_nat (Z.max n 5 `div` 4) ∧
    length digit = Z.to_nat (Z.max n 5 `div` 4) ∧
    length punct = Z.to_nat (Z.max n 5 `div` 4) ∧
    Forall (λ c, c ∈ ascii_lowercase) lower ∧
    Forall (λ c, c ∈ ascii_uppercase) upper ∧
    Forall (λ c, c ∈ digits) digit ∧
    Forall (λ c, c ∈ punctuation) punct ∧
    same_store w w'.
Proof.
  intros HL. unfold create_random_password. rewrite effective_length_max.
  set (L := Z.max n 5) in *.
  assert (Hb : Z.to_nat (L `div` 4) ≤ 10).
  { assert (L `div` 4 < 11)%Z by (apply Z.div_lt_upper_bound; lia). lia. }
  assert (Hr : Z.to_nat (L `mod` 4) ≤ 3).
  { pose proof (Z.mod_pos_bound L 4). lia. }
  cbv zeta. destruct class_sizes as (Hc1 & Hc2 & Hc3 & Hc4).
  destruct (sample_result ascii_lowercase
              (Z.to_nat (L `div` 4) + Z.to_nat (L `mod` 4)) w)
    as [(_ & lower & w1 & E1 & Hl1 & Hin1 & S1) | [Hbad _]];
    [|lia].
  rewrite (bind_ok _ _ _ _ _ E1).
  destruct (sample_result ascii_uppercase (Z.to_nat (L `div` 4)) w1)
    as [(_ & upper & w2 & E2 & Hl2 & Hin2 & S2) | [Hbad _]];
    [|lia].
  rewrite (bind_ok _ _ _ _ _ E2).
  destruct (sample_result digits (Z.to_nat (L `div` 4)) w2)
    as [(_ & digit & w3 & E3 & Hl3 & Hin3 & S3) | [Hbad _]];
    [|lia].
  rewrite (bind_ok _ _ _ _ _ E3).
  destruct (sample_result punctuation (Z.to_nat (L `div` 4)) w3)
    as [(_ & punct & w4 & E4 & Hl4 & Hin4 & S4) | [Hbad _]];
    [|lia].
  rewrite (bind_ok _ _ _ _ _ E4).
  destruct (shuffle_spec (lower ++ upper ++ digit ++ punct) w4)
    as (chars & w5 & E5 & Hperm & S5).
  rewrite (bind_ok _ _ _ _ _ E5).
  exists lower, upper, digit, punct, chars, w5.
  repeat split; try done; try apply S5.
  all: destruct S1 as (? & ? & ?), S2 as (? & ? & ?), S3 as (? & ? & ?),
         S4 as (? & ? & ?), S5 as (? & ? & ?); congruence.
Qed.

(** From 44 characters on, one of the samples is larger than its class. *)
Lemma create_random_password_too_long (n : Z) (w : world) :
  (44 ≤ n)%Z →
  ∃ w', create_random_password n w =
          (Raise (ValueError "Sample larger than population or is negative"), w') ∧
        same_store w w'.
Proof.
  intros Hn. unfold create_random_password. rewrite effective_length_max.
  replace (Z.max n 5) with n by lia.
  assert (Hb : 11 ≤ Z.to_nat (n `div` 4)).
  { assert (11 ≤ n `div` 4)%Z by (apply Z.div_le_lower_bound; lia). lia. }
  cbv zeta. destruct class_sizes as (Hc1 & Hc2 & Hc3 & Hc4).
  destruct (sample_result ascii_lowercase
              (Z.to_nat (n `div` 4) + Z.to_nat (n `mod` 4)) w)
    as [(_ & lower & w1 & E1 & _ & _ & S1) | [_ E1]];
    [rewrite (bind_ok _ _ _ _ _ E1)
    | rewrite (bind_raise _ _ _ _ _ E1); eauto using same_store_refl].
  destruct (sample_result ascii_uppercase (Z.to_nat (n `div` 4)) w1)
    as [(_ & upper & w2 & E2 & _ & _ & S2) | [_ E2]];
    [rewrite (bind_ok _ _ _ _ _ E2) | rewrite (bind_raise _ _ _ _ _ E2); eauto].
  destruct (sample_result digits (Z.to_nat (n `div` 4)) w2)
    as [(Hbad & _) | [_ E3]];
    [lia | rewrite (bind_raise _ _ _ _ _ E3); eauto using same_store_trans].
Qed.

Lemma length_string_of_list_ascii (l : list ascii) :
  String.length (string_of_list_ascii l) = length l.
Proof. induction l as [|c l IH]; cbn; [done | by rewrite IH]. Qed.

Lemma count_in_classes (cls : list ascii) (lower upper digit punct chars : list ascii) :
  chars ≡ₚ lower ++ upper ++ digit ++ punct →
  count_in cls (string_of_list_ascii chars) =
    length (filter (λ c, c ∈ cls) lower) + length (filter (λ c, c ∈ cls) upper) +
    length (filter (λ c, c ∈ cls) digit) + length (filter (λ c, c ∈ cls) punct).
Proof.
  intros Hperm. unfold count_in. rewrite list_ascii_of_string_of_list_ascii.
  rewrite Hperm, !filter_app, !length_app. lia.
Qed.

Lemma world_eta (w : world) :
  World (files w) (journal w) (entropy w) (cursor w) = w.
Proof. by destruct w. Qed.

(** ** The order the shuffle leaves *)

Lemma pick_exact {A} (k : nat) : ∀ (pool picked : list A) (w w' : world),
  pick k pool w = (Ok picked, w') →
  w' = World (files w) (journal w) (entropy w) (cursor w + k).
Proof.
  induction k as [|k IH]; intros pool picked w w'; cbn [pick].
  - intros [= _ <-]. by rewrite Nat.add_0_r, world_eta.
  - unfold bind at 1, draw at 1.
    destruct (pool !! _) as [x|]; [|done]. unfold bind.
    destruct (pick k _ _) as [[chosen|e] w2] eqn:Hpick; [|done].
    intros [= _ <-]. rewrite (IH _ _ _ _ Hpick). cbn. f_equal. lia.
Qed.

(** A run of [pick] reads the draws from the cursor on, and only these. *)
Lemma pick_draws {A} (k : nat) : ∀ (pool picked : list A) (w w' : world) (draws : nat → nat),
  pick k pool w = (Ok picked, w') →
  (∀ i, i < k → draws (cursor w + i) = entropy w (cursor w + i)) →
  pick k pool (World (files w) (journal w) draws (cursor w))
  = (Ok picked, World (files w) (journal w) draws (cursor w + k)).
Proof.
  induction k as [|k IH]; intros pool picked w w' draws; cbn [pick].
  - intros [= <- _] _. unfold ret. by rewrite Nat.add_0_r.
  - unfold bind at 1 3, draw at 1 2. cbn [entropy cursor files journal].
    intros Hrun Hdraws.
    assert (Hd0 : draws (cursor w) = entropy w (cursor w)).
    { pose proof (Hdraws 0 ltac:(lia)) as Hd. by rewrite Nat.add_0_r in Hd. }
    rewrite Hd0.
    destruct (pool !! _) as [x|]; [|done]. unfold bind in *.
    destruct (pick k _ (World (files w) (journal w) (entropy w) (S (cursor w))))
      as [[chosen|e] w2] eqn:Hpick; [|done].
    injection Hrun as <- _.
    pose proof (IH _ _ _ _ draws Hpick) as Hrec.
    cbn [entropy cursor files journal] in Hrec. rewrite Hrec.
    + unfold ret. do 2 f_equal. lia.
    + intros i Hi. replace (S (cursor w) + i) with (cursor w + S i) by lia.
      apply Hdraws. lia.
Qed.

Lemma sample_exact {A} (population picked : list A) (k : nat) (w w' : world) :
  sample population k w = (Ok picked, w') →
  w' = World (files w) (journal w) (entropy w) (cursor w + k).
Proof. unfold sample. case_bool_decide; [apply pick_exact | done]. Qed.

Lemma sample_draws {A} (population picked : list A) (k : nat) (w w' : world)
    (draws : nat → nat) :
  sample population k w = (Ok picked, w') →
  (∀ i, i < k → draws (cursor w + i) = entropy w (cursor w + i)) →
  sample population k (World (files w) (journal w) draws (cursor w))
  = (Ok picked, World (files w) (journal w) draws (cursor w + k)).
Proof. unfold sample. case_bool_decide; [apply pick_draws | done]. Qed.

(** Every arrangement of the pool is what [pick] returns for suitable
    draws: the positions to take, one after the other. *)
Lemma pick_reach {A} (order : list A) : ∀ (pool : list A),
  order ≡ₚ pool →
  ∃ positions : list nat,
    ∀ w, (∀ i j, positions !! i = Some j → entropy w (cursor w + i) = j) →
         pick (length order) pool w
         = (Ok order, World (files w) (journal w) (entropy w) (cursor w + length order)).
Proof.
  induction order as [|x order IH]; intros pool Hperm.
  - exists []. intros w _. cbn. unfold ret. by rewrite Nat.add_0_r, world_eta.
  - assert (Hx : x ∈ pool) by (rewrite <- Hperm; left).
    apply list_elem_of_lookup in Hx as [j Hj].
    assert (Hrest : order ≡ₚ delete j pool).
    { apply (Permutation_cons_inv (a := x)).
      by rewrite Hperm, <- (delete_Permutation pool j x). }
    destruct (IH _ Hrest) as [positions Hpositions].
    exists (j :: positions). intros w Hdraws.
    assert (Hd0 : entropy w (cursor w) = j).
    { pose proof (Hdraws 0 j eq_refl) as Hd. by rewrite Nat.add_0_r in Hd. }
    cbn [length pick]. unfold bind at 1, draw at 1. rewrite Hd0.
    rewrite Nat.mod_small by (by eapply lookup_lt_Some).
    rewrite Hj. unfold bind.
    pose proof (Hpositions (World (files w) (journal w) (entropy w) (S (cursor w))))
      as Hrec.
    cbn [entropy cursor files journal] in Hrec. rewrite Hrec.
    + unfold ret. do 2 f_equal. lia.
    + intros i j' Hi. replace (S (cursor w) + i) with (cursor w + S i) by lia.
      by apply Hdraws.
Qed.

(** The shuffle decides the order: whatever was sampled, each arrangement
    of the sampled characters is the password under draws that differ from
    the given ones only where the shuffle reads them. *)
Lemma create_random_password_any_order (n : Z) (w : world) :
  (Z.max n 5 ≤ 43)%Z →
  ∃ sampled,
    (∃ pwd w', create_random_password n w = (Ok pwd, w') ∧
               list_ascii_of_string pwd ≡ₚ sampled) ∧
    ∀ order, order ≡ₚ sampled →
      ∃ draws,
        (∀ i, i < cursor w + Z.to_nat (Z.max n 5) → draws i = entropy w i) ∧
        fst (create_random_password n (World (files w) (journal w) draws (cursor w)))
        = Ok (string_of_list_ascii order).
Proof.
  intros HL. unfold create_random_password. rewrite effective_length_max.
  set (L := Z.max n 5) in *. cbv zeta.
  set (k2 := Z.to_nat (L `div` 4)). set (k1 := k2 + Z.to_nat (L `mod` 4)).
  assert (Hsum : k1 + k2 + k2 + k2 = Z.to_nat L).
  { subst k1 k2. assert ((0 ≤ L `div` 4)%Z) by (apply Z.div_pos; lia).
    assert ((0 ≤ L `mod` 4)%Z) by (apply Z.mod_pos_bound; lia).
    pose proof (Z.div_mod L 4). lia. }
  assert (Hb : k2 ≤ 10).
  { subst k2. assert (L `div` 4 < 11)%Z by (apply Z.div_lt_upper_bound; lia). lia. }
  assert (Hr : k1 ≤ 13).
  { subst k1. pose proof (Z.mod_pos_bound L 4). lia. }
  destruct class_sizes as (Hc1 & Hc2 & Hc3 & Hc4).
  destruct (sample_result ascii_lowercase k1 w)
    as [(_ & lower & w1 & E1 & _) | [Hbad _]]; [|lia].
  pose proof (sample_exact _ _ _ _ _ E1) as ->.
  destruct (sample_result ascii_uppercase k2 (World (files w) (journal w) (entropy w) (cursor w + k1)))
    as [(_ & upper & w2 & E2 & _) | [Hbad _]]; [|lia].
  pose proof (sample_exact _ _ _ _ _ E2) as ->. cbn [files journal entropy cursor] in *.
  destruct (sample_result digits k2
              (World (files w) (journal w) (entropy w) (cursor w + k1 + k2)))
    as [(_ & digit & w3 & E3 & _) | [Hbad _]]; [|lia].
  pose proof (sample_exact _ _ _ _ _ E3) as ->. cbn [files journal entropy cursor] in *.
  destruct (sample_result punctuation k2
              (World (files w) (journal w) (entropy w) (cursor w + k1 + k2 + k2)))
    as [(_ & punct & w4 & E4 & _) | [Hbad _]]; [|lia].
  pose proof (sample_exact _ _ _ _ _ E4) as ->. cbn [files journal entropy cursor] in *.
  set (sampled := lower ++ upper ++ digit ++ punct).
  exists sampled. split.
  - rewrite (bind_ok _ _ _ _ _ E1), (bind_ok _ _ _ _ _ E2),
      (bind_ok _ _ _ _ _ E3), (bind_ok _ _ _ _ _ E4).
    destruct (shuffle_spec sampled
                (World (files w) (journal w) (entropy w) (cursor w + k1 + k2 + k2 + k2)))
      as (chars & w5 & E5 & Hperm & _).
    fold sampled. rewrite (bind_ok _ _ _ _ _ E5). unfold ret.
    eexists _, _. split; [reflexivity|].
    by rewrite list_ascii_of_string_of_list_ascii.
  - intros order Horder.
    destruct (pick_reach order sampled Horder) as [positions Hpositions].
    set (c4 := cursor w + k1 + k2 + k2 + k2).
    set (draws := λ i, if decide (i < c4) then entropy w i
                       else default 0 (positions !! (i - c4))).
    assert (Hagree : ∀ i, i < c4 → draws i = entropy w i).
    { intros i Hi. unfold draws. by rewrite decide_True. }
    exists draws. split; [intros i Hi; apply Hagree; subst c4; lia|].
    assert (H1 : ∀ i, i < k1 → draws (cursor w + i) = entropy w (cursor w + i))
      by (intros; apply Hagree; unfold c4; lia).
    assert (H2 : ∀ i, i < k2 →
              draws (cursor w + k1 + i) = entropy w (cursor w + k1 + i))
      by (intros; apply Hagree; unfold c4; lia).
    assert (H3 : ∀ i, i < k2 →
              draws (cursor w + k1 + k2 + i) = entropy w (cursor w + k1 + k2 + i))
      by (intros; apply Hagree; unfold c4; lia).
    assert (H4 : ∀ i, i < k2 →
              draws (cursor w + k1 + k2 + k2 + i)
              = entropy w (cursor w + k1 + k2 + k2 + i))
      by (intros; apply Hagree; unfold c4; lia).
    rewrite (bind_ok _ _ _ _ _ (sample_draws _ _ _ _ _ draws E1 H1)).
    rewrite (bind_ok _ _ _ _ _ (sample_draws _ _ _ _ _ draws E2 H2)).
    cbn [files journal entropy cursor].
    rewrite (bind_ok _ _ _ _ _ (sample_draws _ _ _ _ _ draws E3 H3)).
    cbn [files journal entropy cursor].
    rewrite (bind_ok _ _ _ _ _ (sample_draws _ _ _ _ _ draws E4 H4)).
    cbn [files journal entropy cursor]. fold sampled. fold c4.
    unfold shuffle.
    replace (length sampled) with (length order) by by rewrite Horder.
    assert (Hrec : pick (length order) sampled (World (files w) (journal w) draws c4)
              = (Ok order, World (files w) (journal w) draws (c4 + length order))).
    { apply (Hpositions (World (files w) (journal w) draws c4)).
      intros i j Hij. cbn [entropy cursor]. unfold draws.
      rewrite decide_False by lia.
      replace (c4 + i - c4) with i by lia. by rewrite Hij. }
    by rewrite (bind_ok _ _ _ _ _ Hrec).
Qed.

Ltac foreign_class D Hin :=
  eapply Forall_other_class;
  [eapply Forall_impl; [exact D | by intros ? (? & ? & ?)] | exact Hin].

(** C9.  The password generator works with the effective length
    [L = max(password_length, 5)]; whenever it returns a password, that
    password has exactly [L] characters, [L // 4 + L % 4] of them lower-case
    letters and [L // 4] from each of the upper-case, digit and punctuation
    classes; and it does return one for every [L] up to 43.  The order of
    the characters is the one the shuffle draws: the password is an
    arrangement of the sampled characters, and every arrangement of them is
    the password under draws that differ only where the shuffle reads
    them. *)
Theorem create_random_password_distribution (password_length : Z) (w : world) :
  let L := Z.max password_length 5 in
  effective_length password_length = L ∧
  ((L ≤ 43)%Z → ∃ pwd w', create_random_password password_length w = (Ok pwd, w')) ∧
  (∀ pwd w', create_random_password password_length w = (Ok pwd, w') →
    String.length pwd = Z.to_nat L ∧
    count_in ascii_lowercase pwd = Z.to_nat (L `div` 4 + L `mod` 4) ∧
    count_in ascii_uppercase pwd = Z.to_nat (L `div` 4) ∧
    count_in digits pwd = Z.to_nat (L `div` 4) ∧
    count_in punctuation pwd = Z.to_nat (L `div` 4)) ∧
  ((L ≤ 43)%Z →
   ∃ sampled,
     (∃ pwd w', create_random_password password_length w = (Ok pwd, w') ∧
                list_ascii_of_string pwd ≡ₚ sampled) ∧
     ∀ order, order ≡ₚ sampled →
       ∃ draws,
         (∀ i, i < cursor w + Z.to_nat L → draws i = entropy w i) ∧
         fst (create_random_password password_length
                (World (files w) (journal w) draws (cursor w)))
         = Ok (string_of_list_ascii order)).
Proof.
  intros L. split; [apply effective_length_max|]. split; [|split].
  3: apply create_random_password_any_order.
  - intros HL. destruct (create_random_password_ok password_length w HL)
      as (? & ? & ? & ? & chars & w' & E & _). eauto.
  - intros pwd w' Hrun.
    destruct (decide (L ≤ 43)%Z) as [HL|HL].
    + destruct (create_random_password_ok password_length w HL)
        as (lower & upper & digit & punct & chars & w'' & E & Hperm &
            Hl1 & Hl2 & Hl3 & Hl4 & Hin1 & Hin2 & Hin3 & Hin4 & _).
      rewrite E in Hrun. injection Hrun as <- <-.
      destruct classes_disjoint as (D1 & D2 & D3 & D4).
      assert (HdivL : (0 ≤ L `div` 4)%Z) by (apply Z.div_pos; lia).
      assert (HmodL : (0 ≤ L `mod` 4)%Z) by (apply Z.mod_pos_bound; lia).
      fold L in Hl1, Hl2, Hl3, Hl4.
      split; [|split; [|split; [|split]]].
      * rewrite length_string_of_list_ascii, Hperm, !length_app. 
        pose proof (Z.div_mod L 4). lia.
      * rewrite (count_in_classes _ _ _ _ _ _ Hperm).
        rewrite (length_filter_all _ lower) by done.
        rewrite (length_filter_none _ upper), (length_filter_none _ digit),
          (length_filter_none _ punct); [lia|..].
        -- foreign_class D4 Hin4.
        -- foreign_class D3 Hin3.
        -- foreign_class D2 Hin2.
      * rewrite (count_in_classes _ _ _ _ _ _ Hperm).
        rewrite (length_filter_all _ upper) by done.
        rewrite (length_filter_none _ lower), (length_filter_none _ digit),
          (length_filter_none _ punct); [lia|..].
        -- foreign_class D4 Hin4.
        -- foreign_class D3 Hin3.
        -- foreign_class D1 Hin1.
      * rewrite (count_in_classes _ _ _ _ _ _ Hperm).
        rewrite (length_filter_all _ digit) by done.
        rewrite (length_filter_none _ lower), (length_filter_none _ upper),
          (length_filter_none _ punct); [lia|..].
        -- foreign_class D4 Hin4.
        -- foreign_class D2 Hin2.
        -- foreign_class D1 Hin1.
      * rewrite (count_in_classes _ _ _ _ _ _ Hperm).
        rewrite (length_filter_all _ punct) by done.
        rewrite (length_filter_none _ lower), (length_filter_none _ upper),
          (length_filter_none _ digit); [lia|..].
        -- foreign_class D3 Hin3.
        -- foreign_class D2 Hin2.
        -- foreign_class D1 Hin1.
    + destruct (create_random_password_too_long password_length w) as (w'' & E & _);
        [lia|]. rewrite E in Hrun. discriminate.
Qed.

(** C10.  A request for 44 characters or more makes the generator raise
    the error of [random.sample] (the digit class has 10 characters and
    [length // 4] of them are asked for without replacement); a password is
    returned exactly when the effective length is at most 43. *)
Theorem create_random_password_limit (password_length : Z) (w : world) :
  ((44 ≤ password_length)%Z →
     length digits < Z.to_nat (password_length `div` 4) ∧
     fst (create_random_password password_length w) =
       Raise (ValueError "Sample larger than population or is negative")) ∧
  ((∃ pwd, fst (create_random_password password_length w) = Ok pwd) ↔
   (Z.max password_length 5 ≤ 43)%Z).
Proof.
  split.
  - intros Hn. split.
    + assert (11 ≤ password_length `div` 4)%Z by (apply Z.div_le_lower_bound; lia).
      destruct class_sizes as (_ & _ & -> & _). lia.
    + destruct (create_random_password_too_long password_length w Hn) as (w' & E & _).
      by rewrite E.
  - split.
    + intros [pwd Hpwd]. destruct (decide (Z.max password_length 5 ≤ 43)%Z); [done|].
      destruct (create_random_password_too_long password_length w) as (w' & E & _);
        [lia|].
      rewrite E in Hpwd. discriminate.
    + intros HL. destruct (create_random_password_ok password_length w HL)
        as (? & ? & ? & ? & chars & w' & E & _).
      exists (string_of_list_ascii chars). by rewrite E.
Qed.

(** ** The vault store *)

Lemma alter_present {A} (g : A → A) (m : gmap string A) (k : string) (x : A) :
  m !! k = Some x → alter g k m = <[k := g x]> m.
Proof.
  intros Hk. apply map_eq. intros j. destruct (decide (k = j)) as [<-|Hne].
  - by rewrite lookup_alter_eq, lookup_insert_eq, Hk.
  - by rewrite lookup_alter_ne, lookup_insert_ne.
Qed.

#[local] Arguments encrypt_row : simpl never.

Section VaultFacts.

Variable encrypt : nat → string → string → string.
Variable decrypt : string → string → pyval.

(** Decrypting a token under the password it was made with gives the
    message back. *)
Hypothesis decrypt_encrypt :
  ∀ salt message password, decrypt (encrypt salt message password) password = PStr message.

(** The cipher is authenticated: under any other password decryption
    fails, which [cryptocode.decrypt] reports by returning [False]. *)
Hypothesis decrypt_other_password :
  ∀ salt message password password',
    password ≠ password' → decrypt (encrypt salt message password) password' = PFalse.

Lemma encrypt_row_text (master_pwd : string) (cols : list string) : ∀ w,
  encrypt_row encrypt (PStr <$> cols) master_pwd w =
    (Ok (seal_row encrypt master_pwd (entropy w) (cursor w) cols),
     World (files w) (journal w) (entropy w) (cursor w + length cols)).
Proof.
  unfold encrypt_row.
  induction cols as [|message cols IH]; intros w; cbn.
  - unfold ret. by rewrite Nat.add_0_r, world_eta.
  - unfold bind. rewrite IH. cbn. unfold ret. do 3 f_equal. lia.
Qed.

Lemma write_rows (db_file master_pwd : string) (rows : list (list string)) :
  ∀ w acc, files w !! db_file = Some acc →
  forM_ ((λ r : list string, PStr <$> r) <$> rows)
        (λ r, let* encrypted := encrypt_row encrypt r master_pwd in
              do_syscall (SysWriteRow db_file encrypted)) w =
    (Ok tt,
     World (<[db_file := acc ++ seal_rows encrypt master_pwd (entropy w) (cursor w) rows]>
              (files w))
           (journal w ++
              (SysWriteRow db_file <$>
                 seal_rows encrypt master_pwd (entropy w) (cursor w) rows))
           (entropy w)
           (cursor w + sum_list (length <$> rows))).
Proof.
  induction rows as [|r rows IH]; intros w acc Hacc; cbn.
  - unfold ret. rewrite !app_nil_r, Nat.add_0_r, insert_id by done.
    by rewrite world_eta.
  - unfold bind at 1. unfold bind at 1. rewrite encrypt_row_text.
    unfold do_syscall at 1. cbn.
    rewrite (alter_present _ _ _ _ Hacc).
    erewrite IH by (cbn; apply lookup_insert_eq). cbn.
    rewrite insert_insert_eq, <- !app_assoc. cbn.
    by rewrite Nat.add_assoc.
Qed.

Lemma save_database_text (database master_pwd : string) (rows : list (list string)) (w : world) :
  save_database encrypt database master_pwd ((λ r : list string, PStr <$> r) <$> rows) w =
    (Ok tt,
     World (<[database +:+ ".mpmdb" :=
                seal_rows encrypt master_pwd (entropy w) (cursor w) rows]> (files w))
           (journal w ++ SysCreat (database +:+ ".mpmdb") ::
              (SysWriteRow (database +:+ ".mpmdb") <$>
                 seal_rows encrypt master_pwd (entropy w) (cursor w) rows))
           (entropy w)
           (cursor w + sum_list (length <$> rows))).
Proof.
  unfold save_database. cbv zeta. unfold bind at 1, do_syscall at 1.
  erewrite write_rows by (cbn; apply lookup_insert_eq). cbn.
  by rewrite insert_insert_eq, <- app_assoc.
Qed.

Lemma create_empty_database_new (database master_pwd : string) (w : world) :
  files w !! (database +:+ ".mpmdb") = None →
  create_empty_database encrypt database master_pwd w =
    (Ok tt,
     World (<[database +:+ ".mpmdb" :=
                seal_rows encrypt master_pwd (entropy w) (cursor w) [row_header]]> (files w))
           (journal w ++ [SysCreat (database +:+ ".mpmdb");
                          SysWriteRow (database +:+ ".mpmdb")
                            (seal_row encrypt master_pwd (entropy w) (cursor w) row_header)])
           (entropy w) (cursor w + 4)).
Proof.
  intros Hnew. unfold create_empty_database. cbv zeta.
  unfold bind at 1, path_exists. rewrite Hnew.
  rewrite bool_decide_false by (by intros [? ?]).
  unfold bind at 1, do_syscall at 1. unfold bind at 1.
  rewrite encrypt_row_text. unfold do_syscall. cbn.
  by rewrite alter_insert_eq, <- app_assoc.
Qed.

Lemma create_empty_database_exists (database master_pwd : string) (w : world) :
  is_Some (files w !! (database +:+ ".mpmdb")) →
  create_empty_database encrypt database master_pwd w =
    (Raise (FileExistsError "A database with that name already exists"), w).
Proof.
  intros Hold. unfold create_empty_database. cbv zeta.
  unfold bind at 1, path_exists. by rewrite bool_decide_true.
Qed.

(** [open_database] reads and decrypts; it writes nothing and draws nothing. *)
Lemma open_database_reads (database master_pwd : string) (w : world) :
  open_database decrypt database master_pwd w =
    match files w !! (database +:+ ".mpmdb") with
    | None => (Raise (FileNotFoundError "Database file not found"), w)
    | Some [] => (Raise (IndexError "list index out of range"), w)
    | Some ([] :: _) => (Raise (IndexError "list index out of range"), w)
    | Some ((token :: tokens) :: rows) =>
        if decide (decrypt token master_pwd = PStr "index")
        then (Ok ((λ r : csv_row, (λ column, decrypt column master_pwd) <$> r)
                     <$> ((token :: tokens) :: rows)), w)
        else (Raise (ValueError "Master password incorrect"), w)
    end.
Proof.
  unfold open_database. cbv zeta. unfold bind at 1, path_exists.
  destruct (files w !! (database +:+ ".mpmdb")) as [content|] eqn:Hf.
  - rewrite bool_decide_true by eauto. cbn [negb].
    unfold bind, read_rows. rewrite Hf.
    destruct content as [|[|token tokens] rows]; [done..|].
    cbn. destruct (decide (decrypt token master_pwd = PStr "index")) as [E|E].
    + by rewrite bool_decide_false by (by intros ?).
    + by rewrite bool_decide_true.
  - by rewrite bool_decide_false by (by intros [? ?]).
Qed.

Lemma unseal_row (master_pwd : string) (draws : nat → nat) (cols : list string) : ∀ c,
  (λ column, decrypt column master_pwd) <$> seal_row encrypt master_pwd draws c cols
  = PStr <$> cols.
Proof.
  induction cols as [|message cols IH]; intros c; cbn; [done|].
  by rewrite decrypt_encrypt, IH.
Qed.

Lemma unseal_rows (master_pwd : string) (draws : nat → nat) (rows : list (list string)) :
  ∀ c,
  (λ r : csv_row, (λ column, decrypt column master_pwd) <$> r)
    <$> seal_rows encrypt master_pwd draws c rows
  = (λ r : list string, PStr <$> r) <$> rows.
Proof.
  induction rows as [|r rows IH]; intros c; cbn; [done|].
  by rewrite unseal_row, IH.
Qed.

Lemma reindex_never_exits (rows : list row) : ∀ index msg,
  fst (reindex index rows) ≠ Raise (SystemExit msg).
Proof.
  induction rows as [|r rows IH]; intros index msg; cbn; [done|].
  case_bool_decide.
  - destruct r as [|cell cols]; [done|].
    specialize (IH (S index) msg). by destruct (reindex (S index) rows).
  - specialize (IH (S index) msg). by destruct (reindex (S index) rows).
Qed.

(** C2.  Creating a vault that does not exist yet succeeds, and opening a
    vault right after it was created, with the same master password,
    returns the header row ["index","title","username","password"] and
    nothing else. *)
Theorem create_then_open (database master_pwd : string) (w : world) :
  (files w !! (database +:+ ".mpmdb") = None →
   ∃ w', create_empty_database encrypt database master_pwd w = (Ok tt, w')) ∧
  ∀ w', create_empty_database encrypt database master_pwd w = (Ok tt, w') →
    open_database decrypt database master_pwd w' =
      (Ok [[PStr "index"; PStr "title"; PStr "username"; PStr "password"]], w').
Proof.
  split.
  - intros Hnew. rewrite create_empty_database_new by done. eauto.
  - intros w' Hcreate.
    destruct (files w !! (database +:+ ".mpmdb")) as [content|] eqn:Hf.
    + rewrite create_empty_database_exists in Hcreate by eauto. discriminate.
    + rewrite create_empty_database_new in Hcreate by done.
      injection Hcreate as <-.
      rewrite open_database_reads. cbn [files]. rewrite lookup_insert_eq.
      cbn. rewrite !decrypt_encrypt. by rewrite decide_True.
Qed.

(** C1, as the code has it.  A vault created under one master password
    does not open under another one: [open_database] raises
    ValueError("Master password incorrect").  That error is raised exactly
    when the backing file has a first row with a first cell and this cell
    does not decrypt to the text "index"; the other three cells of the
    header row are not looked at. *)
Theorem open_database_wrong_secret (database master_pwd : string) (w : world) :
  (∀ other w', create_empty_database encrypt database master_pwd w = (Ok tt, w') →
     other ≠ master_pwd →
     open_database decrypt database other w' =
       (Raise (ValueError "Master password incorrect"), w')) ∧
  (fst (open_database decrypt database master_pwd w) =
     Raise (ValueError "Master password incorrect")
   ↔ ∃ token tokens rows,
       files w !! (database +:+ ".mpmdb") = Some ((token :: tokens) :: rows) ∧
       decrypt token master_pwd ≠ PStr "index").
Proof.
  split.
  - intros other w' Hcreate Hother.
    destruct (files w !! (database +:+ ".mpmdb")) as [content|] eqn:Hf.
    + rewrite create_empty_database_exists in Hcreate by eauto. discriminate.
    + rewrite create_empty_database_new in Hcreate by done.
      injection Hcreate as <-.
      rewrite open_database_reads. cbn [files]. rewrite lookup_insert_eq.
      cbn. rewrite decrypt_other_password by done. by rewrite decide_False.
  - rewrite open_database_reads.
    destruct (files w !! (database +:+ ".mpmdb")) as [[|[|token tokens] rows]|];
      cbn; try (split; [done | by intros (? & ? & ? & ? & ?)]).
    destruct (decide (decrypt token master_pwd = PStr "index")) as [E|E]; cbn.
    + split; [done|]. intros (? & ? & ? & [= <- <- <-] & ?). done.
    + split; [|done]. intros _. eauto.
Qed.

(** C6, as the code has it.  [open_database] has no error of its own for a
    damaged backing file.  On a file that exists but holds no row, or whose
    first row has no cell, it raises the IndexError("list index out of
    range") of the header test, which nothing catches, and it leaves the
    world as it found it. *)
Theorem open_database_damaged_store (database master_pwd : string) (w : world) :
  (files w !! (database +:+ ".mpmdb") = Some [] →
   open_database decrypt database master_pwd w =
     (Raise (IndexError "list index out of range"), w)) ∧
  (∀ rows, files w !! (database +:+ ".mpmdb") = Some ([] :: rows) →
   open_database decrypt database master_pwd w =
     (Raise (IndexError "list index out of range"), w)).
Proof.
  rewrite open_database_reads. split.
  - by intros ->.
  - by intros rows ->.
Qed.

(** C7, as the code has it.  [save_database] opens the backing file itself
    for writing, which empties that file in place, and then writes the
    freshly encrypted rows to it one after the other; the journal of the
    call holds these operations and no other, so no other path is written
    and nothing is renamed.  When the call returns the file holds the new
    rows. *)
Theorem save_database_overwrites_in_place
    (database master_pwd : string) (rows : list (list string)) (w : world) :
  let db_file := database +:+ ".mpmdb" in
  let sealed := seal_rows encrypt master_pwd (entropy w) (cursor w) rows in
  let run := save_database encrypt database master_pwd
               ((λ r : list string, PStr <$> r) <$> rows) w in
  fst run = Ok tt ∧
  journal (snd run) = journal w ++ SysCreat db_file :: (SysWriteRow db_file <$> sealed) ∧
  apply_syscall (files w) (SysCreat db_file) = <[db_file := []]> (files w) ∧
  files (snd run) = <[db_file := sealed]> (files w).
Proof.
  intros db_file sealed run. subst run. rewrite save_database_text. cbn.
  by repeat split.
Qed.

(** C5.  On rows made of the header and N entries, the remove step ends
    with the exit "Could not remove item: Invalid index" exactly when the
    position is outside 1..N, and then the rows are what they were, in
    memory and in the backing file; position 99 is refused whenever there
    are fewer than 99 entries. *)
Theorem remove_entry_range (header : row) (entries : list row) (position : Z) :
  let rows := header :: entries in
  let invalid_index := SystemExit "Could not remove item: Invalid index
" in
  (fst (remove_entry rows position) = Raise invalid_index
   ↔ ¬ (1 ≤ position ≤ Z.of_nat (length entries))%Z) ∧
  (¬ (1 ≤ position ≤ Z.of_nat (length entries))%Z →
   snd (remove_entry rows position) = rows) ∧
  (length entries < 99 → remove_entry rows 99 = (Raise invalid_index, rows)) ∧
  (∀ database master_pwd w,
     fst (open_database decrypt database master_pwd w) = Ok rows →
     ¬ (1 ≤ position ≤ Z.of_nat (length entries))%Z →
     main_remove encrypt decrypt database master_pwd position w
       = (Raise invalid_index, w)).
Proof.
  intros rows invalid_index.
  assert (Hcase : ∀ p, ¬ (1 ≤ p ≤ Z.of_nat (length entries))%Z →
            remove_entry rows p = (Raise invalid_index, rows)).
  { intros p Hp. unfold remove_entry. rewrite bool_decide_true; [done|].
    subst rows. cbn [length]. lia. }
  repeat split.
  - intros Hfail Hin. unfold remove_entry in Hfail.
    rewrite bool_decide_false in Hfail by (subst rows; cbn [length]; lia).
    by apply reindex_never_exits in Hfail.
  - intros Hout. by rewrite Hcase.
  - intros Hout. by rewrite Hcase.
  - intros Hfew. apply Hcase. lia.
  - intros database master_pwd w Hopen Hout.
    unfold main_remove, bind, catch.
    pose proof (open_database_reads database master_pwd w) as Hreads.
    destruct (open_database decrypt database master_pwd w) as [[rows'|e] w'] eqn:E;
      cbn in Hopen; [|done].
    injection Hopen as ->.
    assert (w' = w) as ->.
    { destruct (files w !! (database +:+ ".mpmdb")) as [[|[|token tokens] rs]|];
        try (by injection Hreads).
      destruct (decide _); by injection Hreads. }
    by rewrite Hcase.
Qed.

(** ** The re-index invariant *)

Lemma create_random_password_returns (n : Z) (w : world) :
  (Z.max n 5 ≤ 43)%Z →
  ∃ pwd w', create_random_password n w = (Ok pwd, w') ∧
            String.length pwd = Z.to_nat (Z.max n 5) ∧ same_store w w'.
Proof.
  intros HL.
  destruct (create_random_password_ok n w HL)
    as (lower & upper & digit & punct & chars & w' & E & Hperm &
        Hl1 & Hl2 & Hl3 & Hl4 & _ & _ & _ & _ & Hst).
  exists (string_of_list_ascii chars), w'. repeat split; try done; try apply Hst.
  rewrite length_string_of_list_ascii, Hperm, !length_app.
  assert ((0 ≤ Z.max n 5 `div` 4)%Z) by (apply Z.div_pos; lia).
  assert ((0 ≤ Z.max n 5 `mod` 4)%Z) by (apply Z.mod_pos_bound; lia).
  pose proof (Z.div_mod (Z.max n 5) 4). lia.
Qed.

Local Abbreviation text rows := ((λ r : list string, PStr <$> r) <$> rows).

Lemma length_numbered (ps : list (string * string * string)) : ∀ k,
  length (numbered k ps) = length ps.
Proof. induction ps as [|[[??]?] ps IH]; intros k; cbn; [done | by rewrite IH]. Qed.

Lemma numbered_snoc (ps : list (string * string * string)) title username password :
  ∀ k, numbered k (ps ++ [(title, username, password)]) =
       numbered k ps ++ [[pretty (k + length ps); title; username; password]].
Proof.
  induction ps as [|[[??]?] ps IH]; intros k; cbn.
  - by rewrite Nat.add_0_r.
  - by rewrite IH, Nat.add_succ_r.
Qed.

Lemma numbered_indexed (ps : list (string * string * string)) : ∀ k i r,
  text (numbered k ps) !! i = Some r → r !! 0 = Some (PStr (pretty (k + i))).
Proof.
  induction ps as [|[[??]?] ps IH]; intros k i r; cbn; [done|].
  destruct i as [|i]; cbn.
  - intros [= <-]. by rewrite Nat.add_0_r.
  - intros Hr. rewrite Nat.add_succ_r. by apply (IH (S k)).
Qed.

Lemma fields_numbered (ps : list (string * string * string)) : ∀ k,
  fields <$> text (numbered k ps) = payload_row <$> ps.
Proof. induction ps as [|[[??]?] ps IH]; intros k; cbn; [done | by rewrite IH]. Qed.

Lemma numbered_entries (ps : list (string * string * string)) : ∀ k,
  Forall2 entry_of (text (numbered k ps)) ps.
Proof.
  induction ps as [|[[??]?] ps IH]; intros k; cbn; constructor; [|apply IH].
  by eexists.
Qed.

Lemma reindex_entries (rows : list row) (ps : list (string * string * string)) :
  Forall2 entry_of rows ps →
  ∀ k, 0 < k → reindex k rows = (Ok tt, text (numbered k ps)).
Proof.
  induction 1 as [|r [[title username] password] rows ps [ix ->] _ IH];
    intros k Hk; cbn; [done|].
  rewrite bool_decide_true by done. by rewrite IH by lia.
Qed.

Section Invariant.

Variables database master_pwd : string.

Local Abbreviation holds := (vault_holds encrypt database master_pwd).

Lemma vault_holds_files ps w w' :
  files w' = files w → holds ps w → holds ps w'.
Proof. unfold vault_holds. by intros ->. Qed.

Lemma open_vault ps w :
  holds ps w →
  open_database decrypt database master_pwd w =
    (Ok (text (row_header :: numbered 1 ps)), w).
Proof.
  intros (draws & c & Hf). rewrite open_database_reads, Hf.
  pose proof (unseal_rows master_pwd draws (row_header :: numbered 1 ps) c) as Hu.
  remember (seal_rows encrypt master_pwd draws c (row_header :: numbered 1 ps))
    as sealed eqn:Hs.
  destruct sealed as [|[|token tokens] rows]; cbn in Hs; try discriminate.
  injection Hs as -> _ _.
  rewrite decrypt_encrypt, decide_True by done. by rewrite Hu.
Qed.

Lemma open_vault_other ps w other :
  other ≠ master_pwd → holds ps w →
  open_database decrypt database other w =
    (Raise (ValueError "Master password incorrect"), w).
Proof.
  intros Hother (draws & c & Hf). rewrite open_database_reads, Hf. cbn.
  rewrite decrypt_other_password by done. by rewrite decide_False.
Qed.

Lemma save_vault ps w :
  holds ps
    (snd (save_database encrypt database master_pwd
            (text (row_header :: numbered 1 ps)) w)).
Proof.
  rewrite save_database_text. cbn [snd]. eexists _, _. cbn [files].
  apply lookup_insert_eq.
Qed.

Lemma main_add_step ps w pwd title username password_length :
  holds ps w →
  ∃ ps', holds ps'
           (snd (main_add encrypt decrypt database pwd title username password_length w)) ∧
         (ps' = ps ∨ ∃ password, ps' = ps ++ [(title, username, password)]).
Proof.
  intros Hv. unfold main_add.
  destruct (decide (pwd = master_pwd)) as [->|Hpwd].
  - unfold bind at 1. unfold catch. rewrite (open_vault _ _ Hv).
    unfold bind at 1. unfold add_entry. unfold bind at 1.
    destruct password_length as [n|]; [|exists ps; split; [done | by left]].
    destruct (decide (Z.max n 5 ≤ 43)%Z) as [HL|HL].
    + destruct (create_random_password_returns n w HL)
        as (password & w1 & -> & _ & Hst).
      unfold ret at 1. exists (ps ++ [(title, username, password)]).
      split; [|right; eauto].
      replace (text (row_header :: numbered 1 ps) ++ _)
        with (text (row_header :: numbered 1 (ps ++ [(title, username, password)]))).
      * unfold bind. pose proof (save_vault (ps ++ [(title, username, password)]) w1) as Hs.
        by destruct (save_database _ _ _ _ w1) as [[[]|e] w2].
      * rewrite numbered_snoc. cbn. rewrite !fmap_app, !length_fmap, length_numbered.
        done.
    + destruct (create_random_password_too_long n w) as (w1 & -> & Hst); [lia|].
      exists ps. split; [|by left].
      cbn [snd]. eapply vault_holds_files; [apply Hst | done].
  - unfold bind at 1. unfold catch. rewrite (open_vault_other _ _ _ Hpwd Hv).
    exists ps. split; [done | by left].
Qed.

Lemma main_remove_step ps w pwd index :
  holds ps w →
  ∃ ps', holds ps' (snd (main_remove encrypt decrypt database pwd index w)) ∧
         (ps' = ps ∨
          (1 ≤ index ≤ Z.of_nat (length ps))%Z ∧ ps' = delete (Z.to_nat index - 1) ps).
Proof.
  intros Hv. unfold main_remove.
  destruct (decide (pwd = master_pwd)) as [->|Hpwd].
  - unfold bind at 1. unfold catch. rewrite (open_vault _ _ Hv).
    unfold remove_entry. rewrite length_fmap. cbn [length]. rewrite length_numbered.
    case_bool_decide as Hrange; [exists ps; split; [done | by left]|].
    assert (Hin : (1 ≤ index ≤ Z.of_nat (length ps))%Z) by lia.
    exists (delete (Z.to_nat index - 1) ps). split; [|by right].
    set (j := Z.to_nat index - 1).
    replace (Z.to_nat index) with (S j) by lia.
    cbn [fmap list_fmap delete list_delete reindex].
    rewrite bool_decide_false by lia.
    erewrite reindex_entries; [| |lia].
    2:{ apply Forall2_delete, (numbered_entries ps 1). }
    unfold bind.
    pose proof (save_vault (delete j ps) w) as Hs.
    cbn [fmap list_fmap] in Hs.
    by destruct (save_database _ _ _ _ w) as [[[]|e] w2].
  - unfold bind at 1. unfold catch. rewrite (open_vault_other _ _ _ Hpwd Hv).
    exists ps. split; [done | by left].
Qed.

Lemma run_command_step ps w c :
  holds ps w →
  ∃ ps', holds ps' (run_command encrypt decrypt database c w) ∧ step_of c ps ps'.
Proof.
  intros Hv. destruct c as [pwd title username password_length | pwd index]; cbn.
  - destruct (main_add_step ps w pwd title username password_length Hv)
      as (ps' & Hv' & Hstep).
    exists ps'. split; [exact Hv'|]. destruct Hstep as [->|[password ->]].
    + by left.
    + right; left. by exists password.
  - destruct (main_remove_step ps w pwd index Hv) as (ps' & Hv' & Hstep).
    exists ps'. split; [exact Hv'|]. destruct Hstep as [->|[Hin ->]].
    + by left.
    + by right; right.
Qed.

Lemma run_commands_hold cmds : ∀ ps w,
  holds ps w →
  ∃ ps', holds ps' (run_commands encrypt decrypt database cmds w).
Proof.
  induction cmds as [|c cmds IH]; intros ps w Hv; cbn; [eauto|].
  destruct (run_command_step ps w c Hv) as (ps' & Hv' & _). eauto.
Qed.

Lemma step_keeps_order c ps ps' :
  step_of c ps ps' →
  order_kept c (text (numbered 1 ps)) (text (numbered 1 ps')).
Proof.
  unfold step_of, order_kept. rewrite !fields_numbered.
  intros [->|[[password Hadd]|Hrm]].
  - by left.
  - right; left. exists password. destruct c; [|done]. by rewrite Hadd, fmap_app.
  - right; right. destruct c; [done|]. destruct Hrm as [Hin ->].
    rewrite !length_fmap, length_numbered. split; [done|].
    by rewrite list_fmap_delete.
Qed.

End Invariant.

(** C3.  Start from a vault that was just created and run any sequence of
    [add] and [remove] commands on it, each one opening the vault, changing
    the rows and saving them.  The vault then opens to the header followed
    by entries whose index cell is the decimal string of their 1-based
    position; and one more command only appends an entry, drops the entry
    at the given position, or changes nothing, so the entries that stay
    keep their order and their cells. *)
Theorem reindex_invariant (database master_pwd : string) (cmds : list command) (w : world) :
  files w !! (database +:+ ".mpmdb") = None →
  let created := snd (create_empty_database encrypt database master_pwd w) in
  let reached := run_commands encrypt decrypt database cmds created in
  ∃ entries,
    fst (open_database decrypt database master_pwd reached)
      = Ok ((PStr <$> row_header) :: entries) ∧
    indexed entries ∧
    ∀ c, ∃ entries',
      fst (open_database decrypt database master_pwd
             (run_command encrypt decrypt database c reached))
        = Ok ((PStr <$> row_header) :: entries') ∧
      indexed entries' ∧
      order_kept c entries entries'.
Proof.
  intros Hnew created reached.
  assert (Hcreated : vault_holds encrypt database master_pwd [] created).
  { subst created. rewrite create_empty_database_new by done. cbn [snd].
    eexists _, _. cbn [files]. apply lookup_insert_eq. }
  destruct (run_commands_hold database master_pwd cmds [] created Hcreated)
    as (ps & Hps). fold reached in Hps.
  exists (text (numbered 1 ps)). split; [|split].
  - by rewrite (open_vault _ _ _ _ Hps).
  - intros i r Hr. by apply (numbered_indexed ps 1 i r).
  - intros c.
    destruct (run_command_step database master_pwd ps reached c Hps)
      as (ps' & Hps' & Hstep).
    exists (text (numbered 1 ps')). split; [|split].
    + by rewrite (open_vault _ _ _ _ Hps').
    + intros i r Hr. by apply (numbered_indexed ps' 1 i r).
    + by apply step_keeps_order.
Qed.

End VaultFacts.

(** ** The add step *)

(** C4.  On rows made of the header and N entries, the add step returns the
    same rows followed by one new row: the index [str(N + 1)], the title,
    the user name and the password that [create_random_password] generated
    for the requested length.  The generator serves every effective length
    up to 43, and then the password has that length. *)
Theorem add_entry_appends (header : row) (entries : list row)
    (title username : string) (password_length : Z) (w : world) :
  let rows := header :: entries in
  let appended password :=
    rows ++ [[PStr (pretty (length entries + 1)); PStr title; PStr username;
              PStr password]] in
  (∀ password w',
     create_random_password password_length w = (Ok password, w') →
     add_entry rows title username (Some password_length) w
       = (Ok (appended password), w')) ∧
  ((Z.max password_length 5 ≤ 43)%Z →
   ∃ password w',
     create_random_password password_length w = (Ok password, w') ∧
     String.length password = Z.to_nat (Z.max password_length 5) ∧
     add_entry rows title username (Some password_length) w
       = (Ok (appended password), w')).
Proof.
  intros rows appended.
  assert (Hadd : ∀ password w',
            create_random_password password_length w = (Ok password, w') →
            add_entry rows title username (Some password_length) w
              = (Ok (appended password), w')).
  { intros password w' Hrun. unfold add_entry.
    rewrite (bind_ok _ _ _ _ _ Hrun). subst rows appended.
    cbn [length]. by rewrite Nat.add_1_r. }
  split; [exact Hadd|].
  intros HL.
  destruct (create_random_password_returns password_length w HL)
    as (password & w' & Hrun & Hlen & _).
  exists password, w'. eauto.
Qed.

(** ** Listing the vaults *)

Lemma py_split_first_cons (sep c : ascii) (s : string) :
  c ≠ sep →
  nth 0 (py_split sep (String c s)) EmptyString
  = String c (nth 0 (py_split sep s) EmptyString).
Proof.
  intros Hc. cbn [py_split].
  destruct (Ascii.eqb_spec c sep) as [|_]; [done|].
  by destruct (py_split sep s).
Qed.

Lemma py_split_first_piece (sep : ascii) (stem rest : string) :
  sep ∉ list_ascii_of_string stem →
  nth 0 (py_split sep (stem +:+ String sep rest)) EmptyString = stem.
Proof.
  induction stem as [|c stem IH]; intros Hsep.
  - change (EmptyString +:+ String sep rest) with (String sep rest).
    cbn. by rewrite Ascii.eqb_refl.
  - cbn [list_ascii_of_string] in Hsep.
    change (String c stem +:+ String sep rest)
      with (String c (stem +:+ String sep rest)).
    rewrite py_split_first_cons by set_solver. rewrite IH by set_solver. done.
Qed.

(** C8, at the input where the code departs from it.  For a vault created
    under the name "my.vault" the backing file is "my.vault.mpmdb";
    [get_database_names] lists it as "my", because it keeps the part of
    every file name before the first dot (whatever follows that dot),
    instead of removing the extension ".mpmdb". *)
Theorem get_database_names_cuts_at_first_dot :
  let w := snd (create_empty_database Reference.encrypt "my.vault" "pw" Reference.fresh) in
  glob "*.mpmdb" (files w) = ["my.vault.mpmdb"] ∧
  get_database_names "*.mpmdb" w = (Ok ["my"], w) ∧
  ∀ stem rest,
    "."%char ∉ list_ascii_of_string stem →
    nth 0 (py_split "." (stem +:+ String "." rest)) EmptyString = stem.
Proof.
  split; [by vm_compute|]. split; [by vm_compute|].
  intros stem rest. apply py_split_first_piece.
Qed.

(** ** The reference cipher satisfies the assumptions on the cipher *)

Lemma reference_decrypt_encrypt (salt : nat) (message password : string) :
  Reference.decrypt (Reference.encrypt salt message password) password = PStr message.
Proof.
  unfold Reference.decrypt, Reference.encrypt.
  induction password as [|c password IH]; cbn; [done|].
  by rewrite Ascii.eqb_refl.
Qed.

Lemma reference_decrypt_other_password (salt : nat) (message password password' : string) :
  password ≠ password' →
  Reference.decrypt (Reference.encrypt salt message password) password' = PFalse.
Proof.
  unfold Reference.decrypt, Reference.encrypt.
  revert password. induction password' as [|c' password' IH];
    intros [|c password] Hne; cbn; try done.
  - by destruct message.
  - destruct (Ascii.eqb_spec c' c) as [->|]; [|done].
    apply IH. congruence.
Qed.

(** ** The vault on concrete inputs *)

(** A vault "v" created under "pw" opens under "pw" to the header row. *)
Lemma create_then_open_witness :
  open_database Reference.decrypt "v" "pw"
    (snd (create_empty_database Reference.encrypt "v" "pw" Reference.fresh))
  = (Ok [[PStr "index"; PStr "title"; PStr "username"; PStr "password"]],
     snd (create_empty_database Reference.encrypt "v" "pw" Reference.fresh)).
Proof.
  apply (create_then_open Reference.encrypt Reference.decrypt
           reference_decrypt_encrypt "v" "pw" Reference.fresh).
  reflexivity.
Defined.

(** A vault "v" created under "pw" does not open under "pw2". *)
Lemma open_database_wrong_secret_witness :
  open_database Reference.decrypt "v" "pw2"
    (snd (create_empty_database Reference.encrypt "v" "pw" Reference.fresh))
  = (Raise (ValueError "Master password incorrect"),
     snd (create_empty_database Reference.encrypt "v" "pw" Reference.fresh)).
Proof.
  apply (open_database_wrong_secret Reference.encrypt Reference.decrypt
           reference_decrypt_other_password "v" "pw" Reference.fresh).
  - reflexivity.
  - discriminate.
Defined.

(** The header the code accepts need not be the canonical one: a backing
    file saved with the first row ["index","x","y","z"] opens without an
    error, although that row differs from the four header fields. *)
Lemma open_database_checks_first_cell_only :
  let saved := [[PStr "index"; PStr "x"; PStr "y"; PStr "z"]] in
  let w := snd (save_database Reference.encrypt "v" "pw" saved Reference.fresh) in
  fst (open_database Reference.decrypt "v" "pw" w) = Ok saved ∧
  saved ≠ [PStr <$> row_header].
Proof. split; [by vm_compute | discriminate]. Qed.

(** A backing file that exists and holds no row at all: opening it ends in
    the IndexError of the header test, which nothing in [open_database]
    catches. *)
Lemma open_database_empty_file :
  let w := snd (do_syscall (SysCreat "v.mpmdb") Reference.fresh) in
  files w !! "v.mpmdb" = Some [] ∧
  open_database Reference.decrypt "v" "pw" w
  = (Raise (IndexError "list index out of range"), w).
Proof. split; reflexivity. Qed.

(** Saving a vault of two rows over itself: the first file operation is
    the opening of the backing file for writing, which empties it; the
    rows are written to this same file afterwards; no other path is
    written and nothing is renamed. *)
Lemma save_database_truncates_live_file :
  let header := [PStr "index"; PStr "title"; PStr "username"; PStr "password"] in
  let entry := [PStr "1"; PStr "Site"; PStr "user"; PStr "k$4Tq"] in
  let sealed_header := [".p.w*index"; ".p.w*title"; ".p.w*username"; ".p.w*password"] in
  let sealed_entry := [".p.w*1"; ".p.w*Site"; ".p.w*user"; ".p.w*k$4Tq"] in
  let w := snd (save_database Reference.encrypt "v" "pw" [header; entry] Reference.fresh) in
  let w' := snd (save_database Reference.encrypt "v" "pw" [header; entry] w) in
  files w !! "v.mpmdb" = Some [sealed_header; sealed_entry] ∧
  drop (length (journal w)) (journal w') =
    [SysCreat "v.mpmdb"; SysWriteRow "v.mpmdb" sealed_header;
     SysWriteRow "v.mpmdb" sealed_entry] ∧
  apply_syscall (files w) (SysCreat "v.mpmdb") !! "v.mpmdb" = Some [].
Proof. repeat split; by vm_compute. Qed.

(** Three commands on a vault that was just created. *)
Lemma reindex_invariant_witness :
  ∃ entries,
    fst (open_database Reference.decrypt "v" "pw"
           (run_commands Reference.encrypt Reference.decrypt "v"
              [Add "pw" "Site" "user" (Some 10%Z); Add "pw" "Mail" "me" (Some 12%Z);
               Remove "pw" 1%Z]
              (snd (create_empty_database Reference.encrypt "v" "pw" Reference.fresh))))
      = Ok ((PStr <$> row_header) :: entries) ∧
    indexed entries.
Proof.
  destruct (reindex_invariant Reference.encrypt Reference.decrypt
              reference_decrypt_encrypt reference_decrypt_other_password
              "v" "pw"
              [Add "pw" "Site" "user" (Some 10%Z); Add "pw" "Mail" "me" (Some 12%Z);
               Remove "pw" 1%Z]
              Reference.fresh)
    as (entries & Hopen & Hindexed & _).
  - reflexivity.
  - exists entries. split; [exact Hopen | exact Hindexed].
Defined.

(** Adding the first entry with a password of 10 characters. *)
Lemma add_entry_appends_witness :
  let header := [PStr "index"; PStr "title"; PStr "username"; PStr "password"] in
  ∃ password w',
    create_random_password 10 Reference.fresh = (Ok password, w') ∧
    String.length password = 10 ∧
    add_entry [header] "Site" "user" (Some 10%Z) Reference.fresh =
      (Ok [header; [PStr "1"; PStr "Site"; PStr "user"; PStr password]], w').
Proof.
  apply (add_entry_appends
           [PStr "index"; PStr "title"; PStr "username"; PStr "password"] []
           "Site" "user" 10 Reference.fresh).
  vm_compute. discriminate.
Defined.

(** A requested length of 44: the generator asks for 11 distinct digits, the
    add step raises and no row is appended. *)
Lemma add_entry_length_44 :
  let header := [PStr "index"; PStr "title"; PStr "username"; PStr "password"] in
  fst (add_entry [header] "Site" "user" (Some 44%Z) Reference.fresh)
  = Raise (ValueError "Sample larger than population or is negative") ∧
  ¬ ∃ password w',
      add_entry [header] "Site" "user" (Some 44%Z) Reference.fresh =
        (Ok [header; [PStr "1"; PStr "Site"; PStr "user"; PStr password]], w').
Proof.
  intros header.
  destruct (create_random_password_too_long 44 Reference.fresh) as (w1 & Hrun & _);
    [lia|].
  assert (Hadd : add_entry [header] "Site" "user" (Some 44%Z) Reference.fresh
                 = (Raise (ValueError "Sample larger than population or is negative"), w1)).
  { unfold add_entry. cbv zeta. by rewrite (bind_raise _ _ _ _ _ Hrun). }
  rewrite Hadd. split; [done|]. by intros (password & w' & Hok).
Qed.

(** * Further properties of the program *)

(** ** The password generator *)

Lemma pick_inv {A} (k : nat) : ∀ (pool picked : list A) (w w' : world),
  pick k pool w = (Ok picked, w') →
  ∃ rest, picked ++ rest ≡ₚ pool ∧ length picked = k ∧ same_store w w'.
Proof.
  induction k as [|k IH]; intros pool picked w w'; cbn [pick].
  - intros [= <- <-]. exists pool. repeat split; done.
  - unfold bind at 1, draw at 1.
    set (i := entropy w (cursor w) `mod` length pool).
    destruct (pool !! i) as [x|] eqn:Hx; [|done].
    set (w1 := World _ _ _ _). unfold bind.
    destruct (pick k (delete i pool) w1) as [[chosen|e] w2] eqn:Hpick; [|done].
    intros [= <- <-].
    destruct (IH _ _ _ _ Hpick) as (rest & Hperm & Hlen & Hst).
    exists rest. split; [|split].
    + cbn. rewrite Hperm. symmetry. by apply delete_Permutation.
    + cbn. by rewrite Hlen.
    + destruct Hst as (? & ? & ?). by repeat split.
Qed.

Lemma sample_inv {A} (population picked : list A) (k : nat) (w w' : world) :
  sample population k w = (Ok picked, w') →
  (∃ rest, picked ++ rest ≡ₚ population) ∧ same_store w w'.
Proof.
  unfold sample. case_bool_decide; [|done].
  intros (rest & Hperm & _ & Hst)%pick_inv. eauto.
Qed.

Lemma sample_nodup {A} (population picked : list A) (k : nat) (w w' : world) :
  NoDup population → sample population k w = (Ok picked, w') →
  NoDup picked ∧ Forall (λ x, x ∈ population) picked.
Proof.
  intros Hnd [(rest & Hperm) _]%sample_inv.
  rewrite <- Hperm in Hnd. apply NoDup_app in Hnd as (? & _ & _).
  split; [done|]. apply Forall_forall. intros x Hx. rewrite <- Hperm. set_solver.
Qed.

(** A successful run, sample by sample. *)
Lemma create_random_password_samples (n : Z) (w w' : world) (pwd : string) :
  create_random_password n w = (Ok pwd, w') →
  ∃ lower upper digit punct chars w1 w2 w3 w4 k1 k2,
    sample ascii_lowercase k1 w = (Ok lower, w1) ∧
    sample ascii_uppercase k2 w1 = (Ok upper, w2) ∧
    sample digits k2 w2 = (Ok digit, w3) ∧
    sample punctuation k2 w3 = (Ok punct, w4) ∧
    shuffle (lower ++ upper ++ digit ++ punct) w4 = (Ok chars, w') ∧
    pwd = string_of_list_ascii chars.
Proof.
  unfold create_random_password. cbv zeta. unfold bind.
  destruct (sample ascii_lowercase _ w) as [[lower|?] w1] eqn:E1; [|done].
  destruct (sample ascii_uppercase _ w1) as [[upper|?] w2] eqn:E2; [|done].
  destruct (sample digits _ w2) as [[digit|?] w3] eqn:E3; [|done].
  destruct (sample punctuation _ w3) as [[punct|?] w4] eqn:E4; [|done].
  destruct (shuffle _ w4) as [[chars|?] w5] eqn:E5; [|done].
  intros [= <- <-]. eauto 20.
Qed.

Lemma class_nodup :
  NoDup ascii_lowercase ∧ NoDup ascii_uppercase ∧ NoDup digits ∧ NoDup punctuation.
Proof. repeat split; apply (bool_decide_unpack _); vm_compute; exact I. Qed.

(** Whatever the outcome, the generator only consumes random draws. *)
Lemma create_random_password_store (n : Z) (w : world) :
  same_store w (snd (create_random_password n w)).
Proof.
  destruct (decide (Z.max n 5 ≤ 43)%Z) as [HL|HL].
  - destruct (create_random_password_ok n w HL)
      as (? & ? & ? & ? & ? & w' & -> & Hrest). apply Hrest.
  - destruct (create_random_password_too_long n w) as (w' & -> & Hst); [lia|].
    exact Hst.
Qed.

(** X1.  A generated password never repeats a character: every class is
    sampled without replacement and the four classes share no character.
    All its characters come from the four classes, and generating it
    touches no file. *)
Theorem create_random_password_distinct (password_length : Z) (w : world) (pwd : string) :
  fst (create_random_password password_length w) = Ok pwd →
  NoDup (list_ascii_of_string pwd) ∧
  Forall (λ c, c ∈ ascii_lowercase ++ ascii_uppercase ++ digits ++ punctuation)
         (list_ascii_of_string pwd) ∧
  files (snd (create_random_password password_length w)) = files w ∧
  journal (snd (create_random_password password_length w)) = journal w.
Proof.
  intros Hrun.
  pose proof (create_random_password_store password_length w) as (Hfiles & Hjournal & _).
  destruct (create_random_password password_length w) as [[pwd'|?] w'] eqn:E; [|done].
  cbn in Hrun. injection Hrun as ->.
  destruct (create_random_password_samples _ _ _ _ E)
    as (lower & upper & digit & punct & chars & w1 & w2 & w3 & w4 & k1 & k2 &
        E1 & E2 & E3 & E4 & E5 & ->).
  destruct class_nodup as (N1 & N2 & N3 & N4).
  destruct classes_disjoint as (D1 & D2 & D3 & D4).
  destruct (sample_nodup _ _ _ _ _ N1 E1) as [Hn1 Hin1].
  destruct (sample_nodup _ _ _ _ _ N2 E2) as [Hn2 Hin2].
  destruct (sample_nodup _ _ _ _ _ N3 E3) as [Hn3 Hin3].
  destruct (sample_nodup _ _ _ _ _ N4 E4) as [Hn4 Hin4].
  apply pick_inv in E5 as (rest & Hperm & Hlen & _).
  assert (rest = []) as ->.
  { apply Permutation_length in Hperm. rewrite length_app, Hlen in Hperm.
    destruct rest; [done | cbn in Hperm; lia]. }
  rewrite app_nil_r in Hperm.
  rewrite list_ascii_of_string_of_list_ascii.
  rewrite Forall_forall in Hin1, Hin2, Hin3, Hin4, D1, D2, D3, D4.
  repeat split; try done.
  - rewrite Hperm. rewrite !NoDup_app. repeat split; try done.
    + intros c Hc. destruct (D1 c (Hin1 c Hc)) as (? & ? & ?).
      rewrite !elem_of_app. intros [?|[?|?]]; auto.
    + intros c Hc. destruct (D2 c (Hin2 c Hc)) as (? & ? & ?).
      rewrite !elem_of_app. intros [?|?]; auto.
    + intros c Hc Hp. destruct (D3 c (Hin3 c Hc)) as (? & ? & ?). auto.
  - apply Forall_forall. intros c. rewrite Hperm, !elem_of_app.
    intros [?|[?|[?|?]]]; auto.
Qed.

(** ** Listing the vaults, continued *)

Lemma list_ascii_of_string_app (a b : string) :
  list_ascii_of_string (a +:+ b) = list_ascii_of_string a ++ list_ascii_of_string b.
Proof.
  induction a as [|c a IH]; [done|].
  change (String c a +:+ b) with (String c (a +:+ b)). cbn. by rewrite IH.
Qed.

Lemma list_ascii_of_string_inj (a b : string) :
  list_ascii_of_string a = list_ascii_of_string b → a = b.
Proof.
  intros H. rewrite <- (string_of_list_ascii_of_string a),
    <- (string_of_list_ascii_of_string b). by rewrite H.
Qed.

(** A pattern without [*] and [?] matches itself only. *)
Lemma fnmatch_literal (lit : list ascii) :
  Forall (λ c, c ≠ "*"%char ∧ c ≠ "?"%char) lit →
  ∀ name, fnmatch lit name = true ↔ name = lit.
Proof.
  induction 1 as [|p lit [Hstar Hany] _ IH]; intros name; cbn.
  - by destruct name.
  - destruct (Ascii.eqb_spec p "*"%char) as [|_]; [done|].
    destruct name as [|c name]; [done|].
    destruct (Ascii.eqb_spec p "?"%char) as [|_]; [done|]. cbn.
    rewrite andb_true_iff, IH.
    destruct (Ascii.eqb_spec p c) as [->|Hne]; naive_solver.
Qed.

(** A star followed by literal characters matches the names that end in
    these characters. *)
Lemma fnmatch_star_literal (lit : list ascii) :
  Forall (λ c, c ≠ "*"%char ∧ c ≠ "?"%char) lit →
  ∀ name, fnmatch ("*"%char :: lit) name = true ↔ ∃ stem, name = stem ++ lit.
Proof.
  intros Hlit name. induction name as [|c name IH].
  - cbn. rewrite orb_false_r, (fnmatch_literal lit Hlit). split.
    + intros <-. by exists [].
    + intros [stem Hstem]. symmetry in Hstem. by apply app_eq_nil in Hstem as [_ ->].
  - change (fnmatch ("*"%char :: lit) (c :: name))
      with (fnmatch lit (c :: name) || fnmatch ("*"%char :: lit) name).
    rewrite orb_true_iff, IH, (fnmatch_literal lit Hlit). split.
    + intros [<-|[stem ->]]; [by exists [] | by exists (c :: stem)].
    + intros [[|c' stem] Hstem]; [by left|].
      injection Hstem as -> ->. right. by exists stem.
Qed.

(** The default pattern selects the files whose name ends in ".mpmdb" and
    does not start with a dot. *)
Lemma components_plain (path : string) : plain path → components path = [path].
Proof.
  unfold plain, components. induction path as [|c path IH]; [done|].
  cbn [list_ascii_of_string py_split]. intros Hplain.
  destruct (Ascii.eqb_spec c "/"%char) as [->|_]; [set_solver|].
  rewrite IH by set_solver. done.
Qed.

Lemma plain_app (a b : string) : plain a → plain b → plain (a +:+ b).
Proof. unfold plain. rewrite list_ascii_of_string_app. set_solver. Qed.

(** What the default pattern selects, in terms of the entries of the
    working directory. *)
Lemma glob_default_entries (fs : gmap string (list csv_row)) (path : string) :
  path ∈ glob "*.mpmdb" fs ↔
  (∃ key, is_Some (fs !! key) ∧ head (components key) = Some path) ∧
  ishidden path = false ∧ ∃ stem, path = stem +:+ ".mpmdb".
Proof.
  unfold glob. change (components "*.mpmdb") with ["*.mpmdb"].
  cbn [glob_below]. rewrite <- list_fmap_compose.
  rewrite (list_fmap_ext _ id _ (λ _ _ _, eq_refl)), list_fmap_id.
  rewrite list_elem_of_In, filter_In, <- list_elem_of_In.
  unfold entries, selects. rewrite elem_of_remove_dups, list_elem_of_omap.
  rewrite andb_true_iff.
  change (list_ascii_of_string "*.mpmdb")
    with ("*"%char :: list_ascii_of_string ".mpmdb").
  rewrite fnmatch_star_literal by (repeat constructor; done).
  change (ishidden "*.mpmdb") with false. cbn [orb]. rewrite negb_true_iff.
  split.
  - intros ((cs & Hcs & Hhead) & [stem Hstem] & Hhid).
    apply list_elem_of_fmap in Hcs as (key & -> & Hkey).
    apply list_elem_of_fmap in Hkey as ([key' content] & -> & Hin%elem_of_map_to_list).
    split; [exists key'; eauto|]. split; [done|].
    exists (string_of_list_ascii stem). apply list_ascii_of_string_inj.
    by rewrite list_ascii_of_string_app, list_ascii_of_string_of_list_ascii.
  - intros ((key & [content Hin] & Hhead) & Hhid & stem & ->).
    split; [|split; [|done]].
    + exists (components key). split; [|done].
      apply list_elem_of_fmap. exists key. split; [done|].
      apply list_elem_of_fmap. exists (key, content). split; [done|].
      by apply elem_of_map_to_list.
    + exists (list_ascii_of_string stem). apply list_ascii_of_string_app.
Qed.

(** In a working directory of plain files the default pattern selects the
    files whose name ends in ".mpmdb" and does not start with a dot. *)
Lemma glob_default (fs : gmap string (list csv_row)) (path : string) :
  map_Forall (λ p _, plain p) fs →
  path ∈ glob "*.mpmdb" fs ↔
  is_Some (fs !! path) ∧ ishidden path = false ∧ ∃ stem, path = stem +:+ ".mpmdb".
Proof.
  intros Hplain. rewrite glob_default_entries. split.
  - intros ((key & [content Hkey] & Hhead) & Hrest).
    rewrite (components_plain key (Hplain _ _ Hkey)) in Hhead.
    injection Hhead as <-. eauto.
  - intros ([content Hkey] & Hrest). split; [|done].
    exists path. split; [eauto|].
    by rewrite (components_plain path (Hplain _ _ Hkey)).
Qed.



(** X3.  In a working directory that holds plain files only, the names
    listed with the default pattern are exactly the first dot-free pieces
    of the files that end in ".mpmdb" and are not hidden (a file whose name
    starts with a dot, such as the backing file of a vault with the empty
    name, is never listed). *)
Theorem get_database_names_default (w : world) (name : string) :
  plain_world w →
  (∃ db_names, get_database_names "*.mpmdb" w = (Ok db_names, w) ∧ name ∈ db_names)
  ↔ ∃ stem,
      is_Some (files w !! (stem +:+ ".mpmdb")) ∧
      ishidden (stem +:+ ".mpmdb") = false ∧
      name = nth 0 (py_split "." (stem +:+ ".mpmdb")) EmptyString.
Proof.
  intros Hplain. split.
  - intros (db_names & [= <-] & Hin).
    apply list_elem_of_fmap in Hin as (path & -> & Hpath).
    apply (glob_default _ _ Hplain) in Hpath as (Hsome & Hhid & stem & ->). eauto.
  - intros (stem & Hsome & Hhid & ->). eexists. split; [reflexivity|].
    apply list_elem_of_fmap. exists (stem +:+ ".mpmdb"). split; [done|].
    apply (glob_default _ _ Hplain). eauto.
Qed.

Lemma ishidden_app (stem suffix : string) :
  stem ≠ EmptyString → "."%char ∉ list_ascii_of_string stem →
  ishidden (stem +:+ suffix) = false.
Proof.
  destruct stem as [|c stem]; [done|]. intros _ Hdot.
  change (String c stem +:+ suffix) with (String c (stem +:+ suffix)). cbn in *.
  destruct (Ascii.eqb_spec c "."%char) as [->|]; [set_solver | done].
Qed.

(** X4.  In a working directory of plain files, a vault created under a
    plain, non-empty name without a dot is listed under that name by
    [get_database_names] with its default pattern. *)
Theorem create_then_list (encrypt : nat → string → string → string)
    (database master_pwd : string) (w w' : world) :
  plain_world w →
  plain database →
  database ≠ EmptyString →
  "."%char ∉ list_ascii_of_string database →
  create_empty_database encrypt database master_pwd w = (Ok tt, w') →
  ∃ db_names, get_database_names "*.mpmdb" w' = (Ok db_names, w') ∧
              database ∈ db_names.
Proof.
  intros _ Hplain Hne Hdot Hcreate.
  assert (Hfile : is_Some (files w' !! (database +:+ ".mpmdb"))).
  { destruct (files w !! (database +:+ ".mpmdb")) as [content|] eqn:Hf.
    - rewrite create_empty_database_exists in Hcreate by eauto. discriminate.
    - rewrite create_empty_database_new in Hcreate by done.
      injection Hcreate as <-. cbn [files]. rewrite lookup_insert_eq. eauto. }
  eexists. split; [reflexivity|].
  apply list_elem_of_fmap. exists (database +:+ ".mpmdb"). split.
  - symmetry. apply (py_split_first_piece "."%char database "mpmdb" Hdot).
  - apply glob_default_entries. split; [|split; [by apply ishidden_app | eauto]].
    exists (database +:+ ".mpmdb"). split; [done|].
    rewrite components_plain; [done|].
    apply plain_app; [done|]. apply (bool_decide_unpack _). by vm_compute.
Qed.

(** X5.  In a working directory of plain files the [list-db] branch ends
    with the exit "No database files found..." exactly when no file that
    is not hidden ends in ".mpmdb"; otherwise it prints the non-empty list
    [get_database_names] returns.  It changes nothing. *)
Theorem main_list_db_exit (w : world) :
  plain_world w →
  (fst (main_list_db w) =
     Raise (SystemExit "No database files found. You can use the 'create-db' subcommand to create a database.
")
   ↔ ¬ ∃ stem, is_Some (files w !! (stem +:+ ".mpmdb")) ∧
               ishidden (stem +:+ ".mpmdb") = false) ∧
  (∀ db_names, fst (main_list_db w) = Ok db_names →
     db_names ≠ [] ∧ get_database_names "*.mpmdb" w = (Ok db_names, w)) ∧
  snd (main_list_db w) = w.
Proof.
  intros Hplain. unfold main_list_db, bind. cbn [get_database_names].
  set (names := _ <$> glob "*.mpmdb" (files w)).
  assert (Hempty : names = [] ↔
            ¬ ∃ stem, is_Some (files w !! (stem +:+ ".mpmdb")) ∧
                      ishidden (stem +:+ ".mpmdb") = false).
  { subst names. split.
    - intros Hglob%fmap_nil_inv (stem & Hsome & Hhid).
      assert (Hin : stem +:+ ".mpmdb" ∈ glob "*.mpmdb" (files w))
        by (apply (glob_default _ _ Hplain); eauto).
      rewrite Hglob in Hin. by apply elem_of_nil in Hin.
    - intros Hnone. destruct (glob "*.mpmdb" (files w)) as [|path paths] eqn:Hg; [done|].
      assert (Hin : path ∈ glob "*.mpmdb" (files w)) by (rewrite Hg; left).
      apply (glob_default _ _ Hplain) in Hin as (Hsome & Hhid & stem & ->).
      destruct Hnone. eauto. }
  case_bool_decide as Hlen.
  - apply nil_length_inv in Hlen. repeat split; try done.
    + intros _. by apply Hempty.
  - assert (names ≠ []) by (intros Hn; by rewrite Hn in Hlen).
    split; [|split; [|done]].
    + split; [done|]. intros Hnone. by apply Hempty in Hnone.
    + intros db_names [= <-]. by split.
Qed.

(** ** The vault store, continued *)

Lemma string_app_inj_r (a b s : string) : a +:+ s = b +:+ s → a = b.
Proof.
  intros H. apply list_ascii_of_string_inj.
  apply (f_equal list_ascii_of_string) in H.
  rewrite !list_ascii_of_string_app in H. by apply app_inv_tail in H.
Qed.

Section StoreFacts.

Variable encrypt : nat → string → string → string.
Variable decrypt : string → string → pyval.

Hypothesis decrypt_encrypt :
  ∀ salt message password, decrypt (encrypt salt message password) password = PStr message.

Hypothesis decrypt_other_password :
  ∀ salt message password password',
    password ≠ password' → decrypt (encrypt salt message password) password' = PFalse.

Local Abbreviation text rows := ((λ r : list string, PStr <$> r) <$> rows).

Lemma open_database_world (database master_pwd : string) (w : world) :
  snd (open_database decrypt database master_pwd w) = w.
Proof.
  rewrite open_database_reads.
  destruct (files w !! (database +:+ ".mpmdb")) as [[|[|token tokens] rows]|];
    try done.
  by destruct (decide _).
Qed.

Lemma open_database_same_file (database master_pwd : string) (w1 w2 : world) :
  files w1 !! (database +:+ ".mpmdb") = files w2 !! (database +:+ ".mpmdb") →
  fst (open_database decrypt database master_pwd w1)
  = fst (open_database decrypt database master_pwd w2).
Proof.
  intros Hsame. rewrite !open_database_reads, Hsame.
  destruct (files w2 !! (database +:+ ".mpmdb")) as [[|[|token tokens] rows]|];
    try done.
  by destruct (decide _).
Qed.

(** X6.  What [save_database] wrote, [open_database] reads back under the
    same password when the first cell of the first row is the text
    "index"; rows saved with another first cell are refused as a wrong
    password, and an empty row set or an empty first row ends in
    IndexError. *)
Theorem save_then_open (database master_pwd : string)
    (rows : list (list string)) (w : world) :
  let saved := snd (save_database encrypt database master_pwd (text rows) w) in
  open_database decrypt database master_pwd saved =
    (match rows with
     | [] | [] :: _ => Raise (IndexError "list index out of range")
     | (cell :: _) :: _ =>
         if decide (cell = "index") then Ok (text rows)
         else Raise (ValueError "Master password incorrect")
     end, saved).
Proof.
  intros saved. subst saved. rewrite save_database_text. cbn [snd].
  rewrite open_database_reads. cbn [files]. rewrite lookup_insert_eq.
  pose proof (unseal_rows encrypt decrypt decrypt_encrypt master_pwd
                (entropy w) rows (cursor w)) as Hu.
  destruct rows as [|[|cell cols] rest]; [done..|].
  cbn [seal_rows seal_row] in Hu |- *. rewrite decrypt_encrypt.
  destruct (decide (cell = "index")) as [->|Hcell].
  - rewrite decide_True by done. by rewrite Hu.
  - by rewrite decide_False by congruence.
Qed.

Lemma delete_database_present (database : string) (w : world) :
  is_Some (files w !! (database +:+ ".mpmdb")) →
  delete_database database w =
    (Ok tt, World (delete (database +:+ ".mpmdb") (files w))
                  (journal w ++ [SysUnlink (database +:+ ".mpmdb")])
                  (entropy w) (cursor w)).
Proof.
  intros Hsome. unfold delete_database, bind, path_exists. cbv zeta.
  by rewrite bool_decide_true.
Qed.

Lemma delete_database_missing (database : string) (w : world) :
  files w !! (database +:+ ".mpmdb") = None →
  delete_database database w =
    (Raise (FileNotFoundError "Database file not found"), w).
Proof.
  intros Hnone. unfold delete_database, bind, path_exists. cbv zeta.
  rewrite Hnone. by rewrite bool_decide_false by (by intros [? ?]).
Qed.

(** X7.  [delete_database] raises FileNotFoundError and changes nothing
    when the backing file is missing.  Otherwise it removes exactly that
    file: opening the vault afterwards fails with FileNotFoundError under
    any password, and the name can be used to create a vault again. *)
Theorem delete_database_removes (database : string) (w : world) :
  (files w !! (database +:+ ".mpmdb") = None →
   delete_database database w =
     (Raise (FileNotFoundError "Database file not found"), w)) ∧
  (is_Some (files w !! (database +:+ ".mpmdb")) →
   let deleted := snd (delete_database database w) in
   fst (delete_database database w) = Ok tt ∧
   files deleted = delete (database +:+ ".mpmdb") (files w) ∧
   (∀ master_pwd,
      open_database decrypt database master_pwd deleted =
        (Raise (FileNotFoundError "Database file not found"), deleted)) ∧
   (∀ master_pwd,
      fst (create_empty_database encrypt database master_pwd deleted) = Ok tt)).
Proof.
  split; [apply delete_database_missing|].
  intros Hsome deleted. subst deleted.
  rewrite delete_database_present by done. cbn [fst snd files].
  repeat split.
  - intros master_pwd. rewrite open_database_reads. cbn [files].
    by rewrite lookup_delete_eq.
  - intros master_pwd. rewrite create_empty_database_new; [done|].
    cbn [files]. apply lookup_delete_eq.
Qed.

(** X8.  [create_empty_database] raises FileExistsError exactly when the
    backing file is already there, and then changes nothing; so creating a
    vault a second time, under any password, fails and leaves the vault of
    the first call as it is. *)
Theorem create_empty_database_refuses_existing (database master_pwd : string) (w : world) :
  (fst (create_empty_database encrypt database master_pwd w) =
     Raise (FileExistsError "A database with that name already exists")
   ↔ is_Some (files w !! (database +:+ ".mpmdb"))) ∧
  (is_Some (files w !! (database +:+ ".mpmdb")) →
   snd (create_empty_database encrypt database master_pwd w) = w) ∧
  (files w !! (database +:+ ".mpmdb") = None →
   ∀ other,
     create_empty_database encrypt database other
       (snd (create_empty_database encrypt database master_pwd w))
     = (Raise (FileExistsError "A database with that name already exists"),
        snd (create_empty_database encrypt database master_pwd w))).
Proof.
  repeat split.
  - destruct (files w !! (database +:+ ".mpmdb")) eqn:Hf; [eauto|].
    by rewrite create_empty_database_new.
  - intros Hsome. by rewrite create_empty_database_exists.
  - intros Hsome. by rewrite create_empty_database_exists.
  - intros Hnone other.
    rewrite (create_empty_database_new encrypt database master_pwd w Hnone). cbn [snd].
    apply create_empty_database_exists. cbn [files]. rewrite lookup_insert_eq. eauto.
Qed.

(** ** What a run leaves alone *)

Lemma keeps_refl path w : keeps path w w.
Proof. done. Qed.

Lemma keeps_trans path w1 w2 w3 :
  keeps path w1 w2 → keeps path w2 w3 → keeps path w1 w3.
Proof. unfold keeps. congruence. Qed.

Lemma same_store_keeps path w w' : same_store w w' → keeps path w w'.
Proof. intros (Hf & _). unfold keeps. by rewrite Hf. Qed.

Lemma bind_keeps {A B} path (m : M A) (k : A → M B) w :
  keeps path w (snd (m w)) →
  (∀ a w', keeps path w' (snd (k a w'))) →
  keeps path w (snd (bind m k w)).
Proof.
  intros Hm Hk. unfold bind. destruct (m w) as [[a|e] w']; cbn in *; [|done].
  eapply keeps_trans; [exact Hm | apply Hk].
Qed.

Lemma forM_keeps {A} path (f : A → M unit) (l : list A) :
  (∀ a w, keeps path w (snd (f a w))) →
  ∀ w, keeps path w (snd (forM_ l f w)).
Proof.
  intros Hf. induction l as [|a l IH]; intros w; cbn [forM_]; [done|].
  apply bind_keeps; [apply Hf | intros _ w'; apply IH].
Qed.

Lemma encrypt_cell_store (column : pyval) (master_pwd : string) (w : world) :
  same_store w (snd (encrypt_cell encrypt column master_pwd w)).
Proof. by destruct column. Qed.

Lemma encrypt_row_store (r : row) (master_pwd : string) : ∀ w,
  same_store w (snd (encrypt_row encrypt r master_pwd w)).
Proof.
  unfold encrypt_row. induction r as [|column r IH]; intros w; cbn [mapM].
  - apply same_store_refl.
  - unfold bind at 1.
    pose proof (encrypt_cell_store column master_pwd w) as Hc.
    destruct (encrypt_cell encrypt column master_pwd w) as [[token|e] w1];
      cbn in Hc; [|done].
    unfold bind. specialize (IH w1).
    destruct (mapM _ r w1) as [[tokens|e] w2]; cbn in IH |- *;
      by eapply same_store_trans.
Qed.

Lemma do_syscall_keeps (path : string) (c : syscall) (w : world) :
  match c with SysCreat p | SysWriteRow p _ | SysUnlink p => p ≠ path end →
  keeps path w (snd (do_syscall c w)).
Proof.
  unfold keeps. destruct c; cbn; intros Hne.
  - by rewrite lookup_insert_ne.
  - by rewrite lookup_alter_ne.
  - by rewrite lookup_delete_ne.
Qed.

Lemma save_database_keeps (database master_pwd : string) (rows : list row)
    (path : string) (w : world) :
  path ≠ database +:+ ".mpmdb" →
  keeps path w (snd (save_database encrypt database master_pwd rows w)).
Proof.
  intros Hne. unfold save_database. cbv zeta.
  apply bind_keeps; [by apply do_syscall_keeps|]. intros _ w1.
  apply forM_keeps. intros r w2.
  apply bind_keeps; [apply same_store_keeps, encrypt_row_store|].
  intros tokens w3. by apply do_syscall_keeps.
Qed.

Lemma create_empty_database_keeps (database master_pwd path : string) (w : world) :
  path ≠ database +:+ ".mpmdb" →
  keeps path w (snd (create_empty_database encrypt database master_pwd w)).
Proof.
  intros Hne. destruct (files w !! (database +:+ ".mpmdb")) eqn:Hf.
  - by rewrite create_empty_database_exists by eauto.
  - rewrite create_empty_database_new by done. unfold keeps. cbn.
    by rewrite lookup_insert_ne.
Qed.

Lemma delete_database_keeps (database path : string) (w : world) :
  path ≠ database +:+ ".mpmdb" →
  keeps path w (snd (delete_database database w)).
Proof.
  intros Hne. destruct (files w !! (database +:+ ".mpmdb")) eqn:Hf.
  - rewrite delete_database_present by eauto. unfold keeps. cbn.
    by rewrite lookup_delete_ne.
  - by rewrite delete_database_missing.
Qed.

Lemma exit_on_error_world {A} (e : exn) (w : world) :
  ∃ e', @exit_on_error A e w = (Raise e', w).
Proof. destruct e; cbn; eauto. Qed.

Lemma open_or_exit_world (database master_pwd : string) (w : world) :
  snd (catch (open_database decrypt database master_pwd) exit_on_error w) = w.
Proof.
  unfold catch. pose proof (open_database_world database master_pwd w) as Hw.
  destruct (open_database decrypt database master_pwd w) as [[rows|e] w'];
    cbn in Hw; subst w'; [done|].
  by destruct (exit_on_error_world (A := list row) e w) as [e' ->].
Qed.

Lemma add_entry_store (rows : list row) (title username : string)
    (password_length : option Z) (w : world) :
  same_store w (snd (add_entry rows title username password_length w)).
Proof.
  unfold add_entry, bind. cbv zeta.
  destruct password_length as [n|]; [|apply same_store_refl].
  pose proof (create_random_password_store n w) as Hst.
  by destruct (create_random_password n w) as [[password|e] w'].
Qed.

Lemma main_add_keeps (database master_pwd title username : string)
    (password_length : option Z) (path : string) (w : world) :
  path ≠ database +:+ ".mpmdb" →
  keeps path w
    (snd (main_add encrypt decrypt database master_pwd title username password_length w)).
Proof.
  intros Hne. unfold main_add.
  apply bind_keeps; [by rewrite open_or_exit_world|]. intros rows w1.
  apply bind_keeps; [apply same_store_keeps, add_entry_store|]. intros rows' w2.
  apply bind_keeps; [by apply save_database_keeps | done].
Qed.

Lemma main_remove_keeps (database master_pwd : string) (index : Z)
    (path : string) (w : world) :
  path ≠ database +:+ ".mpmdb" →
  keeps path w (snd (main_remove encrypt decrypt database master_pwd index w)).
Proof.
  intros Hne. unfold main_remove.
  apply bind_keeps; [by rewrite open_or_exit_world|]. intros rows w1.
  destruct (remove_entry rows index) as [[[]|e] rows']; [|done].
  apply bind_keeps; [by apply save_database_keeps | done].
Qed.

Lemma run_commands_keeps (database path : string) (cmds : list command) :
  path ≠ database +:+ ".mpmdb" →
  ∀ w, keeps path w (run_commands encrypt decrypt database cmds w).
Proof.
  intros Hne. induction cmds as [|c cmds IH]; intros w; cbn; [done|].
  eapply keeps_trans; [|apply IH].
  destruct c; cbn; [by apply main_add_keeps | by apply main_remove_keeps].
Qed.

(** X9.  Vaults with plain names do not interfere.  In a working directory
    of plain files, where two names without a slash denote the same file
    only if they are the same name, creating, saving or deleting the vault
    [database], and any sequence of add/remove runs on it, leave the backing
    file of every vault with another plain name as it was, so that vault
    opens to the same result as before.  (A name with a slash is left out:
    "./v" and "v" are two names of one vault.) *)
Theorem other_vaults_untouched (database other : string) (w : world) :
  plain_world w →
  plain database →
  plain other →
  other ≠ database →
  let path := other +:+ ".mpmdb" in
  (∀ master_pwd,
     files (snd (create_empty_database encrypt database master_pwd w)) !! path
     = files w !! path) ∧
  (∀ master_pwd rows,
     files (snd (save_database encrypt database master_pwd rows w)) !! path
     = files w !! path) ∧
  files (snd (delete_database database w)) !! path = files w !! path ∧
  (∀ cmds,
     files (run_commands encrypt decrypt database cmds w) !! path = files w !! path) ∧
  (∀ cmds master_pwd,
     fst (open_database decrypt other master_pwd
            (run_commands encrypt decrypt database cmds w))
     = fst (open_database decrypt other master_pwd w)).
Proof.
  intros _ _ _ Hother path.
  assert (Hne : path ≠ database +:+ ".mpmdb").
  { intros Heq. by apply string_app_inj_r in Heq. }
  repeat split.
  - intros master_pwd. by apply create_empty_database_keeps.
  - intros master_pwd rows. by apply save_database_keeps.
  - by apply delete_database_keeps.
  - intros cmds. by apply run_commands_keeps.
  - intros cmds master_pwd. apply open_database_same_file.
    by apply run_commands_keeps.
Qed.

(** ** Cells that are not text *)

Lemma encrypt_row_false (bad : row) (master_pwd : string) : ∀ w,
  PFalse ∈ bad →
  ∃ e w', encrypt_row encrypt bad master_pwd w = (Raise e, w') ∧ same_store w w'.
Proof using encrypt.
  clear decrypt decrypt_encrypt decrypt_other_password.
  intros w Hbad.
  pose proof (encrypt_row_store bad master_pwd w) as Hst.
  destruct (encrypt_row encrypt bad master_pwd w) as [[tokens|e] w'] eqn:E;
    [|eauto].
  exfalso. clear Hst. revert w tokens w' E.
  unfold encrypt_row. induction bad as [|column bad IH]; intros w tokens w'.
  - by apply elem_of_nil in Hbad.
  - cbn [mapM]. unfold bind at 1.
    destruct column as [message|]; cbn.
    + unfold bind. destruct (mapM _ bad _) as [[tokens'|e] w2] eqn:E2; [|done].
      intros _. eapply IH; [|exact E2]. set_solver.
    + done.
Qed.

Lemma write_rows_stop (db_file master_pwd : string) (bad : row) (rest : list row)
    (good : list (list string)) :
  PFalse ∈ bad →
  ∀ w acc, files w !! db_file = Some acc →
  ∃ e w',
    forM_ (text good ++ bad :: rest)
          (λ r, let* encrypted := encrypt_row encrypt r master_pwd in
                do_syscall (SysWriteRow db_file encrypted)) w = (Raise e, w') ∧
    files w' =
      <[db_file := acc ++ seal_rows encrypt master_pwd (entropy w) (cursor w) good]>
        (files w).
Proof using encrypt.
  intros Hbad. induction good as [|r good IH]; intros w acc Hacc.
  - cbn [fmap list_fmap app forM_ seal_rows].
    destruct (encrypt_row_false bad master_pwd w Hbad) as (e & w' & E & Hst & _).
    exists e, w'. unfold bind at 1. unfold bind at 1. rewrite E. split; [done|].
    by rewrite Hst, app_nil_r, insert_id.
  - cbn [fmap list_fmap app forM_ seal_rows].
    unfold bind at 1. unfold bind at 1. rewrite encrypt_row_text.
    unfold do_syscall at 1. cbn [files journal entropy cursor apply_syscall].
    rewrite (alter_present _ _ _ _ Hacc).
    edestruct IH as (e & w' & -> & Hfiles); [apply lookup_insert_eq|].
    exists e, w'. split; [done|]. rewrite Hfiles. cbn [files entropy cursor].
    by rewrite insert_insert_eq, <- app_assoc.
Qed.

(** X10.  [save_database] is not all-or-nothing on rows that hold a cell
    which is not text (the [False] that decrypting a damaged token gives):
    it raises at the first such row, after the backing file was emptied and
    the rows before it were written, so the file is left with only these
    rows. *)
Theorem save_database_stops_at_false (database master_pwd : string)
    (good : list (list string)) (bad : row) (rest : list row) (w : world) :
  PFalse ∈ bad →
  ∃ e w',
    save_database encrypt database master_pwd (text good ++ bad :: rest) w
      = (Raise e, w') ∧
    files w' =
      <[database +:+ ".mpmdb" :=
          seal_rows encrypt master_pwd (entropy w) (cursor w) good]> (files w).
Proof using encrypt.
  intros Hbad. unfold save_database. cbv zeta. unfold bind at 1, do_syscall at 1.
  edestruct (write_rows_stop (database +:+ ".mpmdb") master_pwd bad rest good Hbad)
    as (e & w' & -> & Hfiles); [cbn [files]; apply lookup_insert_eq|].
  exists e, w'. split; [done|]. rewrite Hfiles. cbn.
  by rewrite insert_insert_eq.
Qed.

(** ** The branches of main *)

(** X11.  On a vault that does not exist the [open-db], [add] and
    [remove] branches all end with the exit "Error: Database file not
    found", and on a vault that exists the [create-db] branch ends with the
    exit "Error: A database with that name already exists"; none of them
    changes anything. *)
Theorem main_exits_on_missing_or_existing (database master_pwd : string) (w : world) :
  (files w !! (database +:+ ".mpmdb") = None →
   main_open_db decrypt database master_pwd w
     = (Raise (SystemExit "Error: Database file not found"), w) ∧
   (∀ title username password_length,
      main_add encrypt decrypt database master_pwd title username password_length w
        = (Raise (SystemExit "Error: Database file not found"), w)) ∧
   (∀ index,
      main_remove encrypt decrypt database master_pwd index w
        = (Raise (SystemExit "Error: Database file not found"), w))) ∧
  (is_Some (files w !! (database +:+ ".mpmdb")) →
   main_create_db encrypt database master_pwd w
     = (Raise (SystemExit "Error: A database with that name already exists"), w)).
Proof.
  split.
  - intros Hnone.
    assert (Hopen : catch (open_database decrypt database master_pwd) exit_on_error w
              = (Raise (SystemExit "Error: Database file not found"), w)).
    { unfold catch. by rewrite open_database_reads, Hnone. }
    split; [exact Hopen|]. split.
    + intros title username password_length. unfold main_add.
      by rewrite (bind_raise _ _ _ _ _ Hopen).
    + intros index. unfold main_remove. by rewrite (bind_raise _ _ _ _ _ Hopen).
  - intros Hsome. unfold main_create_db, catch.
    by rewrite create_empty_database_exists.
Qed.

(** X12.  Without the option [-l] the [add] branch never adds anything:
    argparse hands [None] to [create_random_password], whose comparison
    with the minimum length raises TypeError when the vault has opened; the
    run ends in an error and the world is as before. *)
Theorem main_add_without_length (database master_pwd title username : string) (w : world) :
  ∃ e,
    main_add encrypt decrypt database master_pwd title username None w = (Raise e, w) ∧
    (∀ rows, fst (open_database decrypt database master_pwd w) = Ok rows →
       e = TypeError "'<' not supported between instances of 'NoneType' and 'int'").
Proof.
  unfold main_add, bind, catch.
  pose proof (open_database_world database master_pwd w) as Hw.
  destruct (open_database decrypt database master_pwd w) as [[rows|e] w'];
    cbn in Hw; subst w'.
  - cbn. eexists. split; [reflexivity|]. done.
  - destruct (exit_on_error_world (A := list row) e w) as [e' ->].
    exists e'. split; [done|]. by intros rows [=].
Qed.

Lemma main_add_outcome (database master_pwd : string) ps w pwd title username
    password_length :
  vault_holds encrypt database master_pwd ps w →
  match main_add encrypt decrypt database pwd title username password_length w with
  | (Ok rows, w') =>
      ∃ ps', vault_holds encrypt database master_pwd ps' w' ∧
             rows = text (row_header :: numbered 1 ps')
  | (Raise _, w') => files w' = files w
  end.
Proof.
  intros Hv. unfold main_add.
  destruct (decide (pwd = master_pwd)) as [->|Hpwd].
  - unfold bind at 1. unfold catch.
    rewrite (open_vault encrypt decrypt decrypt_encrypt _ _ _ _ Hv).
    unfold bind at 1. unfold add_entry. unfold bind at 1.
    destruct password_length as [n|]; [|done].
    pose proof (create_random_password_store n w) as Hst.
    destruct (create_random_password n w) as [[password|e] w1]; cbn in Hst;
      [|apply Hst].
    unfold ret at 1.
    replace (text (row_header :: numbered 1 ps) ++ _)
      with (text (row_header :: numbered 1 (ps ++ [(title, username, password)]))).
    + unfold bind. rewrite save_database_text. unfold ret.
      exists (ps ++ [(title, username, password)]). split; [|done].
      eexists _, _. cbn [files]. apply lookup_insert_eq.
    + rewrite numbered_snoc. cbn. rewrite !fmap_app, !length_fmap, length_numbered.
      done.
  - unfold bind at 1. unfold catch.
    by rewrite (open_vault_other encrypt decrypt decrypt_other_password _ _ _ _ _ Hpwd Hv).
Qed.

Lemma main_remove_outcome (database master_pwd : string) ps w pwd index :
  vault_holds encrypt database master_pwd ps w →
  match main_remove encrypt decrypt database pwd index w with
  | (Ok rows, w') =>
      ∃ ps', vault_holds encrypt database master_pwd ps' w' ∧
             rows = text (row_header :: numbered 1 ps')
  | (Raise _, w') => files w' = files w
  end.
Proof.
  intros Hv. unfold main_remove.
  destruct (decide (pwd = master_pwd)) as [->|Hpwd].
  - unfold bind at 1. unfold catch.
    rewrite (open_vault encrypt decrypt decrypt_encrypt _ _ _ _ Hv).
    unfold remove_entry. rewrite length_fmap. cbn [length]. rewrite length_numbered.
    case_bool_decide as Hrange; [done|].
    set (j := Z.to_nat index - 1).
    replace (Z.to_nat index) with (S j) by lia.
    cbn [fmap list_fmap delete list_delete reindex].
    rewrite bool_decide_false by lia.
    erewrite reindex_entries; [| |lia].
    2:{ apply Forall2_delete, (numbered_entries ps 1). }
    unfold bind.
    change ((PStr <$> row_header) :: text (numbered 1 (delete j ps)))
      with (text (row_header :: numbered 1 (delete j ps))).
    rewrite save_database_text. unfold ret.
    exists (delete j ps). split; [|done].
    eexists _, _. cbn [files]. apply lookup_insert_eq.
  - unfold bind at 1. unfold catch.
    by rewrite (open_vault_other encrypt decrypt decrypt_other_password _ _ _ _ _ Hpwd Hv).
Qed.

(** X13.  On a vault that was created and then changed by any sequence of
    add and remove runs, one more add or remove run, with whatever password
    and arguments, has one of two outcomes: it succeeds, and then the table
    it prints is what the vault opens to afterwards; or it ends in an error,
    and then the files are exactly as before. *)
Theorem run_prints_what_it_stores (database master_pwd : string)
    (cmds : list command) (w : world) :
  files w !! (database +:+ ".mpmdb") = None →
  let created := snd (create_empty_database encrypt database master_pwd w) in
  let reached := run_commands encrypt decrypt database cmds created in
  (∀ pwd title username password_length,
     match main_add encrypt decrypt database pwd title username password_length reached with
     | (Ok rows, w') => open_database decrypt database master_pwd w' = (Ok rows, w')
     | (Raise _, w') => files w' = files reached
     end) ∧
  (∀ pwd index,
     match main_remove encrypt decrypt database pwd index reached with
     | (Ok rows, w') => open_database decrypt database master_pwd w' = (Ok rows, w')
     | (Raise _, w') => files w' = files reached
     end).
Proof.
  intros Hnew created reached.
  assert (Hcreated : vault_holds encrypt database master_pwd [] created).
  { subst created. rewrite create_empty_database_new by done. cbn [snd].
    eexists _, _. cbn [files]. apply lookup_insert_eq. }
  destruct (run_commands_hold encrypt decrypt decrypt_encrypt decrypt_other_password
              database master_pwd cmds [] created Hcreated) as (ps & Hps).
  fold reached in Hps. split.
  - intros pwd title username password_length.
    pose proof (main_add_outcome database master_pwd ps reached pwd title username
                  password_length Hps) as Hout.
    destruct (main_add _ _ _ _ _ _ _ reached) as [[rows|e] w']; [|done].
    destruct Hout as (ps' & Hps' & ->).
    apply (open_vault encrypt decrypt decrypt_encrypt _ _ _ _ Hps').
  - intros pwd index.
    pose proof (main_remove_outcome database master_pwd ps reached pwd index Hps) as Hout.
    destruct (main_remove _ _ _ _ _ reached) as [[rows|e] w']; [|done].
    destruct Hout as (ps' & Hps' & ->).
    apply (open_vault encrypt decrypt decrypt_encrypt _ _ _ _ Hps').
Qed.

(** X14.  On such a vault a run under any password other than the master
    password ends with the exit "Error: Master password incorrect" in the
    [open-db], [add] and [remove] branches alike, and changes nothing. *)
Theorem main_exits_on_wrong_password (database master_pwd other : string)
    (cmds : list command) (w : world) :
  files w !! (database +:+ ".mpmdb") = None →
  other ≠ master_pwd →
  let created := snd (create_empty_database encrypt database master_pwd w) in
  let reached := run_commands encrypt decrypt database cmds created in
  main_open_db decrypt database other reached
    = (Raise (SystemExit "Error: Master password incorrect"), reached) ∧
  (∀ title username password_length,
     main_add encrypt decrypt database other title username password_length reached
       = (Raise (SystemExit "Error: Master password incorrect"), reached)) ∧
  (∀ index,
     main_remove encrypt decrypt database other index reached
       = (Raise (SystemExit "Error: Master password incorrect"), reached)).
Proof.
  intros Hnew Hother created reached.
  assert (Hcreated : vault_holds encrypt database master_pwd [] created).
  { subst created. rewrite create_empty_database_new by done. cbn [snd].
    eexists _, _. cbn [files]. apply lookup_insert_eq. }
  destruct (run_commands_hold encrypt decrypt decrypt_encrypt decrypt_other_password
              database master_pwd cmds [] created Hcreated) as (ps & Hps).
  fold reached in Hps.
  assert (Hopen : catch (open_database decrypt database other) exit_on_error reached
            = (Raise (SystemExit "Error: Master password incorrect"), reached)).
  { unfold catch.
    by rewrite (open_vault_other encrypt decrypt decrypt_other_password _ _ _ _ _
                  Hother Hps). }
  split; [exact Hopen|]. split.
  - intros title username password_length. unfold main_add.
    by rewrite (bind_raise _ _ _ _ _ Hopen).
  - intros index. unfold main_remove. by rewrite (bind_raise _ _ _ _ _ Hopen).
Qed.

End StoreFacts.

(** X15.  The [delete-db] branch deletes the backing file when it exists.
    When it does not, the branch neither prints its error message nor leaves
    through [sys.exit]: the handler reads the variable [err], which has no
    value there, and the run ends with UnboundLocalError; nothing is
    changed. *)
Theorem main_delete_db_ending (database : string) (w : world) :
  (files w !! (database +:+ ".mpmdb") = None →
   main_delete_db database w = (UnboundLocalError "err", w)) ∧
  (is_Some (files w !! (database +:+ ".mpmdb")) →
   fst (main_delete_db database w) = Returned ∧
   files (snd (main_delete_db database w)) = delete (database +:+ ".mpmdb") (files w)).
Proof.
  unfold main_delete_db. split.
  - intros Hnone. by rewrite delete_database_missing.
  - intros Hsome. by rewrite delete_database_present.
Qed.

(** ** Re-indexing rows in memory *)

Lemma reindex_ok (rows : list row) :
  Forall (λ r, r ≠ []) rows →
  ∀ k, 0 < k →
  ∃ rows', reindex k rows = (Ok tt, rows') ∧
           length rows' = length rows ∧
           fields <$> rows' = fields <$> rows ∧
           ∀ i r, rows' !! i = Some r → r !! 0 = Some (PStr (pretty (k + i))).
Proof.
  induction 1 as [|r rows Hr _ IH]; intros k Hk; cbn [reindex].
  - exists []. by repeat split.
  - rewrite bool_decide_true by done. destruct r as [|cell cols]; [done|].
    destruct (IH (S k)) as (rows' & -> & Hlen & Hfields & Hidx); [lia|].
    eexists. split; [reflexivity|]. split; [cbn; by rewrite Hlen|].
    split; [cbn; by rewrite Hfields|].
    intros [|i] r; cbn.
    + intros [= <-]. by rewrite Nat.add_0_r.
    + intros Hr'. rewrite Nat.add_succ_r. by apply (Hidx i r).
Qed.

Lemma reindex_empty_row (rows : list row) :
  [] ∈ rows → ∀ k, 0 < k →
  fst (reindex k rows) = Raise (IndexError "list assignment index out of range").
Proof.
  induction rows as [|r rows IH]; intros Hin k Hk; [by apply elem_of_nil in Hin|].
  cbn [reindex]. rewrite bool_decide_true by done.
  destruct r as [|cell cols]; [done|].
  assert (Hin' : [] ∈ rows) by set_solver.
  specialize (IH Hin' (S k) ltac:(lia)).
  by destruct (reindex (S k) rows).
Qed.

Lemma remove_entry_valid (header : row) (entries : list row) (position : Z) :
  (1 ≤ position ≤ Z.of_nat (length entries))%Z →
  remove_entry (header :: entries) position =
    (fst (reindex 1 (delete (Z.to_nat position - 1) entries)),
     header :: snd (reindex 1 (delete (Z.to_nat position - 1) entries))).
Proof.
  intros Hin. unfold remove_entry.
  rewrite bool_decide_false by (cbn [length]; lia).
  replace (Z.to_nat position) with (S (Z.to_nat position - 1)) at 1 by lia.
  cbn [delete list_delete reindex]. rewrite bool_decide_false by lia.
  by destruct (reindex 1 _).
Qed.

(** X16.  The remove step works on any rows in memory, whatever their
    index cells hold: when every entry has at least one cell and the
    position is in range, it returns the header unchanged followed by the
    other entries in their order, one fewer, with their cells after the
    index untouched and their index cells renumbered from 1. *)
Theorem remove_entry_renumbers (header : row) (entries : list row) (position : Z) :
  Forall (λ r, r ≠ []) entries →
  (1 ≤ position ≤ Z.of_nat (length entries))%Z →
  ∃ entries',
    remove_entry (header :: entries) position = (Ok tt, header :: entries') ∧
    length entries' = length entries - 1 ∧
    indexed entries' ∧
    fields <$> entries' = delete (Z.to_nat position - 1) (fields <$> entries).
Proof.
  intros Hcells Hin. rewrite remove_entry_valid by done.
  destruct (reindex_ok (delete (Z.to_nat position - 1) entries)
              (Forall_delete _ _ _ Hcells) 1)
    as (entries' & E & Hlen & Hfields & Hidx); [lia|].
  exists entries'. rewrite E. split; [done|]. split; [|split].
  - rewrite Hlen, length_delete; [done|]. apply lookup_lt_is_Some_2. lia.
  - intros i r Hr. by apply (Hidx i r).
  - by rewrite Hfields, list_fmap_delete.
Qed.

(** X17.  An entry without any cell (what [csv.reader] yields for a blank
    line) that stays in the rows makes the remove step raise
    IndexError("list assignment index out of range") while it renumbers;
    the [remove] branch then ends with that error before saving, and the
    files are untouched. *)
Theorem remove_entry_blank_row (header : row) (entries : list row) (position : Z) :
  (1 ≤ position ≤ Z.of_nat (length entries))%Z →
  [] ∈ delete (Z.to_nat position - 1) entries →
  fst (remove_entry (header :: entries) position)
    = Raise (IndexError "list assignment index out of range") ∧
  ∀ encrypt decrypt database master_pwd w,
    fst (open_database decrypt database master_pwd w) = Ok (header :: entries) →
    main_remove encrypt decrypt database master_pwd position w
      = (Raise (IndexError "list assignment index out of range"), w).
Proof.
  intros Hin Hblank.
  assert (Hfail : fst (remove_entry (header :: entries) position)
            = Raise (IndexError "list assignment index out of range")).
  { rewrite remove_entry_valid by done. cbn [fst].
    apply reindex_empty_row; [done | lia]. }
  split; [exact Hfail|].
  intros encrypt decrypt database master_pwd w Hopen.
  unfold main_remove, bind, catch.
  pose proof (open_database_world decrypt database master_pwd w) as Hw.
  destruct (open_database decrypt database master_pwd w) as [[rows|e] w'];
    cbn in Hw, Hopen; subst w'; [|done].
  injection Hopen as ->.
  destruct (remove_entry (header :: entries) position) as [[[]|e] rows'];
    cbn in Hfail; [done|]. by injection Hfail as ->.
Qed.

(** ** A vault with a damaged cell *)

Lemma open_database_header_ok (decrypt : string → string → pyval)
    (database master_pwd : string) (w : world)
    (token : string) (tokens : csv_row) (rows : list csv_row) :
  files w !! (database +:+ ".mpmdb") = Some ((token :: tokens) :: rows) →
  decrypt token master_pwd = PStr "index" →
  open_database decrypt database master_pwd w =
    (Ok ((λ r : csv_row, (λ column, decrypt column master_pwd) <$> r)
           <$> ((token :: tokens) :: rows)), w).
Proof.
  intros Hfile Htoken. rewrite open_database_reads, Hfile.
  by rewrite decide_True.
Qed.

(** X18.  Let the backing file hold the header and further rows encrypted
    under the master password, then a row with a token that does not
    decrypt, then anything.  The vault still opens (only the first cell is
    checked), but an [add] run with a valid password length then ends in an
    error after the file was rewritten up to the damaged row: the damaged
    row, every row after it and the new entry are gone from the file. *)
Theorem main_add_truncates_damaged_vault
    (encrypt : nat → string → string → string) (decrypt : string → string → pyval)
    (database master_pwd title username : string) (password_length : Z)
    (cols : list string) (good : list (list string))
    (damaged : csv_row) (rest : list csv_row) (draws : nat → nat) (c : nat) (w : world) :
  (∀ salt message password, decrypt (encrypt salt message password) password = PStr message) →
  files w !! (database +:+ ".mpmdb") =
    Some (seal_rows encrypt master_pwd draws c (("index" :: cols) :: good)
          ++ damaged :: rest) →
  PFalse ∈ ((λ column, decrypt column master_pwd) <$> damaged) →
  (Z.max password_length 5 ≤ 43)%Z →
  ∃ e w' draws' c',
    main_add encrypt decrypt database master_pwd title username (Some password_length) w
      = (Raise e, w') ∧
    files w' !! (database +:+ ".mpmdb") =
      Some (seal_rows encrypt master_pwd draws' c' (("index" :: cols) :: good)).
Proof.
  intros decrypt_encrypt Hfile Hdamaged HL.
  set (bad := (λ column, decrypt column master_pwd) <$> damaged) in *.
  assert (Hopen : ∃ rest',
            open_database decrypt database master_pwd w =
              (Ok (((λ r : list string, PStr <$> r) <$> (("index" :: cols) :: good))
                   ++ bad :: rest'), w)).
  { eexists.
    rewrite (open_database_header_ok decrypt database master_pwd w
               (encrypt (draws c) "index" master_pwd)
               (seal_row encrypt master_pwd draws (S c) cols)
               (seal_rows encrypt master_pwd draws (c + length ("index" :: cols)) good
                ++ damaged :: rest)
               Hfile (decrypt_encrypt _ _ _)).
    change ((encrypt (draws c) "index" master_pwd
             :: seal_row encrypt master_pwd draws (S c) cols)
            :: seal_rows encrypt master_pwd draws (c + length ("index" :: cols)) good
               ++ damaged :: rest)
      with (seal_rows encrypt master_pwd draws c (("index" :: cols) :: good)
            ++ damaged :: rest).
    rewrite fmap_app, fmap_cons.
    by rewrite (unseal_rows encrypt decrypt decrypt_encrypt). }
  destruct Hopen as [rest' Hopen].
  unfold main_add. unfold bind at 1. unfold catch. rewrite Hopen.
  unfold bind at 1. unfold add_entry. unfold bind at 1.
  destruct (create_random_password_returns password_length w HL)
    as (password & w1 & -> & _ & Hst).
  unfold ret at 1. rewrite <- app_assoc, <- app_comm_cons.
  match goal with
  | |- context [save_database _ _ _ (_ ++ bad :: ?after)] =>
      destruct (save_database_stops_at_false encrypt database master_pwd
                  (("index" :: cols) :: good) bad after w1 Hdamaged)
        as (e & w2 & Hsave & Hfiles)
  end.
  unfold bind. rewrite Hsave. exists e, w2, (entropy w1), (cursor w1).
  split; [done|]. rewrite Hfiles. apply lookup_insert_eq.
Qed.

(** ** The further properties on concrete inputs *)

(** The password of 9 characters generated from the draws of
    [Reference.fresh]. *)
Lemma create_random_password_distinct_witness :
  NoDup (list_ascii_of_string "Yl80|td?G") ∧
  Forall (λ c, c ∈ ascii_lowercase ++ ascii_uppercase ++ digits ++ punctuation)
         (list_ascii_of_string "Yl80|td?G") ∧
  files (snd (create_random_password 9 Reference.fresh)) = files Reference.fresh ∧
  journal (snd (create_random_password 9 Reference.fresh)) = journal Reference.fresh.
Proof.
  apply (create_random_password_distinct 9 Reference.fresh "Yl80|td?G").
  reflexivity.
Defined.

(** The vault "v" is listed after it was created. *)
Lemma create_then_list_witness :
  let w' := snd (create_empty_database Reference.encrypt "v" "pw" Reference.fresh) in
  ∃ db_names, get_database_names "*.mpmdb" w' = (Ok db_names, w') ∧ "v" ∈ db_names.
Proof.
  apply (create_then_list Reference.encrypt "v" "pw" Reference.fresh).
  - apply map_Forall_empty.
  - apply (bool_decide_unpack _). vm_compute. exact I.
  - discriminate.
  - apply (bool_decide_unpack _). vm_compute. exact I.
  - reflexivity.
Defined.

(** The names listed in a directory that holds the vault "v" only. *)
Lemma get_database_names_default_witness :
  let w := snd (create_empty_database Reference.encrypt "v" "pw" Reference.fresh) in
  (∃ db_names, get_database_names "*.mpmdb" w = (Ok db_names, w) ∧ "v" ∈ db_names)
  ↔ ∃ stem,
      is_Some (files w !! (stem +:+ ".mpmdb")) ∧
      ishidden (stem +:+ ".mpmdb") = false ∧
      "v" = nth 0 (py_split "." (stem +:+ ".mpmdb")) EmptyString.
Proof.
  intros w. apply (get_database_names_default w "v").
  unfold plain_world. apply (bool_decide_unpack _). vm_compute. exact I.
Defined.

(** Listing in the empty directory. *)
Lemma main_list_db_exit_witness :
  fst (main_list_db Reference.fresh) =
    Raise (SystemExit "No database files found. You can use the 'create-db' subcommand to create a database.
")
  ↔ ¬ ∃ stem, is_Some (files Reference.fresh !! (stem +:+ ".mpmdb")) ∧
              ishidden (stem +:+ ".mpmdb") = false.
Proof.
  apply (main_list_db_exit Reference.fresh). apply map_Forall_empty.
Defined.

(** Two rows saved and read back. *)
Lemma save_then_open_witness :
  let rows := [["index"; "title"; "username"; "password"];
               ["1"; "Site"; "user"; "k$4Tq"]] in
  let saved := snd (save_database Reference.encrypt "v" "pw"
                      ((λ r : list string, PStr <$> r) <$> rows) Reference.fresh) in
  open_database Reference.decrypt "v" "pw" saved
  = (Ok ((λ r : list string, PStr <$> r) <$> rows), saved).
Proof.
  exact (save_then_open Reference.encrypt Reference.decrypt reference_decrypt_encrypt
           "v" "pw"
           [["index"; "title"; "username"; "password"];
            ["1"; "Site"; "user"; "k$4Tq"]] Reference.fresh).
Defined.

(** Runs on the vault "v" leave the vault "u" alone. *)
Lemma other_vaults_untouched_witness :
  let w := snd (create_empty_database Reference.encrypt "u" "pw" Reference.fresh) in
  files (snd (create_empty_database Reference.encrypt "v" "pw2" w)) !! "u.mpmdb"
  = files w !! "u.mpmdb".
Proof.
  intros w.
  destruct (other_vaults_untouched Reference.encrypt Reference.decrypt "v" "u" w)
    as (Hcreate & _).
  - unfold plain_world. apply (bool_decide_unpack _). vm_compute. exact I.
  - apply (bool_decide_unpack _). vm_compute. exact I.
  - apply (bool_decide_unpack _). vm_compute. exact I.
  - discriminate.
  - apply Hcreate.
Defined.

(** Saving the header and an entry whose password cell is [False]. *)
Lemma save_database_stops_at_false_witness :
  ∃ e w',
    save_database Reference.encrypt "v" "pw"
      (((λ r : list string, PStr <$> r) <$> [["index"; "title"; "username"; "password"]])
       ++ [PStr "1"; PStr "Site"; PStr "user"; PFalse] :: []) Reference.fresh
    = (Raise e, w') ∧
    files w' =
      <["v" +:+ ".mpmdb" :=
          seal_rows Reference.encrypt "pw" (entropy Reference.fresh)
            (cursor Reference.fresh) [["index"; "title"; "username"; "password"]]]>
        (files Reference.fresh).
Proof.
  apply (save_database_stops_at_false Reference.encrypt "v" "pw"
           [["index"; "title"; "username"; "password"]]
           [PStr "1"; PStr "Site"; PStr "user"; PFalse] [] Reference.fresh).
  do 3 apply list_elem_of_further. apply list_elem_of_here.
Defined.

(** A remove run after one add run. *)
Lemma run_prints_what_it_stores_witness :
  let reached :=
    run_commands Reference.encrypt Reference.decrypt "v"
      [Add "pw" "Site" "user" (Some 10%Z)]
      (snd (create_empty_database Reference.encrypt "v" "pw" Reference.fresh)) in
  match main_remove Reference.encrypt Reference.decrypt "v" "pw" 1 reached with
  | (Ok rows, w') => open_database Reference.decrypt "v" "pw" w' = (Ok rows, w')
  | (Raise _, w') => files w' = files reached
  end.
Proof.
  intros reached.
  destruct (run_prints_what_it_stores Reference.encrypt Reference.decrypt
              reference_decrypt_encrypt reference_decrypt_other_password
              "v" "pw" [Add "pw" "Site" "user" (Some 10%Z)] Reference.fresh)
    as [_ Hremove].
  - reflexivity.
  - apply Hremove.
Defined.

(** The password "guess" on a vault made under "pw". *)
Lemma main_exits_on_wrong_password_witness :
  let reached :=
    run_commands Reference.encrypt Reference.decrypt "v"
      [Add "pw" "Site" "user" (Some 10%Z)]
      (snd (create_empty_database Reference.encrypt "v" "pw" Reference.fresh)) in
  main_open_db Reference.decrypt "v" "guess" reached
  = (Raise (SystemExit "Error: Master password incorrect"), reached).
Proof.
  intros reached.
  destruct (main_exits_on_wrong_password Reference.encrypt Reference.decrypt
              reference_decrypt_encrypt reference_decrypt_other_password
              "v" "pw" "guess" [Add "pw" "Site" "user" (Some 10%Z)] Reference.fresh)
    as [Hopen _].
  - reflexivity.
  - discriminate.
  - apply Hopen.
Defined.

(** Removing the first of two entries whose index cells are out of step. *)
Lemma remove_entry_renumbers_witness :
  let header := [PStr "index"; PStr "title"; PStr "username"; PStr "password"] in
  let entries := [[PStr "7"; PStr "Site"; PStr "user"; PStr "k$4Tq"];
                  [PStr "x"; PStr "Mail"; PStr "me"; PStr "Zq!81"]] in
  ∃ entries',
    remove_entry (header :: entries) 1 = (Ok tt, header :: entries') ∧
    length entries' = length entries - 1 ∧
    indexed entries' ∧
    fields <$> entries' = delete (Z.to_nat 1 - 1) (fields <$> entries).
Proof.
  intros header entries.
  apply (remove_entry_renumbers header entries 1).
  - repeat (constructor; [discriminate|]). constructor.
  - cbn. lia.
Defined.

(** Removing the first entry when a blank row follows it. *)
Lemma remove_entry_blank_row_witness :
  let header := [PStr "index"; PStr "title"; PStr "username"; PStr "password"] in
  let entries := [[PStr "1"; PStr "Site"; PStr "user"; PStr "k$4Tq"]; []] in
  fst (remove_entry (header :: entries) 1)
  = Raise (IndexError "list assignment index out of range").
Proof.
  intros header entries.
  destruct (remove_entry_blank_row header entries 1) as [Hfail _].
  - cbn. lia.
  - apply list_elem_of_here.
  - exact Hfail.
Defined.

(** A vault whose second row holds a token that is no token of the
    reference cipher. *)
Lemma main_add_truncates_damaged_vault_witness :
  let w := World {["v.mpmdb" :=
                     [[".p.w*index"; ".p.w*title"; ".p.w*username"; ".p.w*password"];
                      [".p.w*1"; ".p.w*Site"; "garbage"; ".p.w*k$4Tq"];
                      [".p.w*2"; ".p.w*Mail"; ".p.w*me"; ".p.w*Zq!81"]]]}
                 [] (λ n, 7 * n + 3) 0 in
  ∃ e w' draws' c',
    main_add Reference.encrypt Reference.decrypt "v" "pw" "Bank" "me" (Some 10%Z) w
      = (Raise e, w') ∧
    files w' !! ("v" +:+ ".mpmdb") =
      Some (seal_rows Reference.encrypt "pw" draws' c'
              (("index" :: ["title"; "username"; "password"]) :: [])).
Proof.
  intros w.
  apply (main_add_truncates_damaged_vault Reference.encrypt Reference.decrypt
           "v" "pw" "Bank" "me" 10 ["title"; "username"; "password"] []
           [".p.w*1"; ".p.w*Site"; "garbage"; ".p.w*k$4Tq"]
           [[".p.w*2"; ".p.w*Mail"; ".p.w*me"; ".p.w*Zq!81"]]
           (λ n, n) 0 w).
  - apply reference_decrypt_encrypt.
  - reflexivity.
  - do 2 apply list_elem_of_further. apply list_elem_of_here.
  - cbn. lia.
Defined.
